(** * Cppyplot: wire encoding and raw-string dedent of [include/cppyplot.hpp]

    A shallow embedding of the header-only library: the [ValType] type
    registry, the container adapters ([shape_str], [size_str], [void_ptr]),
    [create_header], the message sequencing of [send_container] and
    [data_args], and the text routines [non_empty_line_idx] and
    [dedent_string].

    Conventions.
    - [int] and [unsigned int] are 32 bit, [std::size_t] is 64 bit; values are
      integers in [Z] and every conversion of the source is written with
      [to_int], [to_unsigned] or [to_size_t].
    - A [std::string_view] is a list of characters; an index loop
      [for (i = a; i < s.length(); i++)] is a recursion on the suffix of [s]
      that starts at [a], carrying [i] (texts are shorter than 2^32
      characters, so the [unsigned int] index reaches the end).
    - [std::string_view::substr] throws [std::out_of_range]; functions that
      can throw return [option], [None] standing for the exception. *)

From Stdlib Require Import ZArith List Ascii String Bool Lia.
From Stdlib Require Import DecimalString DecimalN DecimalFacts.
Import ListNotations.

Open Scope Z_scope.

(* ------------------------------------------------------------------ *)
(** ** Machine integers *)

Module CInt.

Definition INT_MAX : Z := 2 ^ 31 - 1.

(** Conversion to [unsigned int]: reduction modulo 2^32. *)
Definition to_unsigned (z : Z) : Z := z mod 2 ^ 32.

(** Conversion to [int]: the two's complement reading of the low 32 bits. *)
Definition to_int (z : Z) : Z := (z + 2 ^ 31) mod 2 ^ 32 - 2 ^ 31.

(** Conversion to [std::size_t]: reduction modulo 2^64 (a negative [int]
    becomes a value of at least 2^63). *)
Definition to_size_t (z : Z) : Z := z mod 2 ^ 64.

End CInt.
Import CInt.

(* ------------------------------------------------------------------ *)
(** ** Characters and string views *)

Definition newline : ascii := "010"%char.
Definition space   : ascii := " "%char.
Definition tab     : ascii := "009"%char.

(** The one-character string ["\n"]. *)
Definition NL : string := String newline EmptyString.

Definition string_view := list ascii.

Definition sv_length (s : string_view) : Z := Z.of_nat (List.length s).

(** [s.substr(pos, count)]: throws when [pos > s.size()], otherwise the
    characters of [[pos, pos + min(count, size - pos))]. *)
Definition sv_substr (s : string_view) (pos count : Z) : option string_view :=
  if sv_length s <? pos then None
  else Some (firstn (Z.to_nat (Z.min count (sv_length s - pos)))
                    (skipn (Z.to_nat pos) s)).

(* ------------------------------------------------------------------ *)
(** ** [non_empty_line_idx] *)

(** The loop of [non_empty_line_idx] from index [i] on, [rest] being the
    characters [in_str[i..]]. *)
Fixpoint non_empty_line_scan (rest : string_view)
    (i new_line_pos num_spaces : Z) : Z * Z :=
  match rest with
  | [] => (to_int (new_line_pos + 1), num_spaces)
  | c :: rest' =>
      if Ascii.eqb c newline then
        non_empty_line_scan rest' (to_unsigned (i + 1)) (to_int i) 0
      else if negb (Ascii.eqb c space) && negb (Ascii.eqb c tab) then
        (to_int (new_line_pos + 1), num_spaces)
      else
        non_empty_line_scan rest' (to_unsigned (i + 1)) new_line_pos
                            (to_unsigned (num_spaces + 1))
  end.

Definition non_empty_line_idx (in_str : string_view) : Z * Z :=
  non_empty_line_scan in_str 0 (-1) 0.

(* ------------------------------------------------------------------ *)
(** ** [dedent_string] *)

(** The local variables of the [else] branch of [dedent_string]. *)
Record dedent_state : Type := mk_dedent_state {
  out_str         : string_view;
  line_start      : Z;      (* int *)
  process_spaces  : bool;
  cur_space_count : Z       (* int *)
}.

Definition dedent_init : dedent_state :=
  mk_dedent_state [] (-1) true 0.

(** [line_start -= (cur_space_count - num_spaces)]: the subtraction is
    carried out in [unsigned int] and the result stored back in an [int]. *)
Definition adjust_line_start (line_start cur_space_count num_spaces : Z) : Z :=
  to_int (to_unsigned (to_unsigned line_start
                       - to_unsigned (to_unsigned cur_space_count - num_spaces))).

(** [i - line_start + 1u], an [unsigned int]. *)
Definition piece_count (i line_start : Z) : Z :=
  to_unsigned (to_unsigned (i - to_unsigned line_start) + 1).

(** One iteration of the [for] loop at index [i] with [c = raw_str[i]]. *)
Definition dedent_step (raw_str : string_view) (num_spaces : Z)
    (i : Z) (c : ascii) (st : dedent_state) : option dedent_state :=
  if process_spaces st then
    if negb (Ascii.eqb c space) && negb (Ascii.eqb c tab) then
      Some (mk_dedent_state (out_str st) (to_int i) false (cur_space_count st))
    else
      Some (mk_dedent_state (out_str st) (line_start st) true
                            (to_int (cur_space_count st + 1)))
  else if Ascii.eqb c newline then
    if line_start st =? -1 then
      Some (mk_dedent_state (out_str st) (-1) true 0)
    else
      let ls := adjust_line_start (line_start st) (cur_space_count st) num_spaces in
      match sv_substr raw_str (to_size_t ls) (to_size_t (piece_count i ls)) with
      | None => None
      | Some piece => Some (mk_dedent_state (out_str st ++ piece) (-1) true 0)
      end
  else Some st.

Fixpoint dedent_loop (raw_str : string_view) (num_spaces : Z)
    (rest : string_view) (i : Z) (st : dedent_state) : option string_view :=
  match rest with
  | [] => Some (out_str st)
  | c :: rest' =>
      match dedent_step raw_str num_spaces i c st with
      | None => None
      | Some st' => dedent_loop raw_str num_spaces rest' (to_unsigned (i + 1)) st'
      end
  end.

(** [dedent_string] on a view. *)
Definition dedent_view (raw_str : string_view) : option string_view :=
  let '(occupied_line_start, num_spaces) := non_empty_line_idx raw_str in
  if num_spaces =? 0 then Some raw_str
  else
    let i0 := to_unsigned occupied_line_start in
    dedent_loop raw_str num_spaces (skipn (Z.to_nat i0) raw_str) i0 dedent_init.

Definition dedent_string (raw_str : string) : option string :=
  option_map string_of_list_ascii (dedent_view (list_ascii_of_string raw_str)).

(** Sequencing of two calls that can throw. *)
Definition and_then {A B : Type} (x : option A) (f : A -> option B) : option B :=
  match x with
  | Some a => f a
  | None => None
  end.

(** The [std::string_view] made from a [const char] pointer to a
    zero-terminated array whose
    characters before the terminator are [s]: the characters up to the first
    zero, all of [s] when it holds none. *)
Fixpoint c_str_view (s : string) : string :=
  match s with
  | EmptyString => EmptyString
  | String c s' =>
      if Ascii.eqb c zero then EmptyString else String c (c_str_view s')
  end.

(* ------------------------------------------------------------------ *)
(** ** The type registry [ValType] *)

(** Element types.  The first thirteen constructors are the types for which
    the header specialises [ValType]; [OtherType] stands for any other
    [value_type] (bool, long double, a user type, ...), for which the primary
    template is instantiated. *)
Inductive ctype : Type :=
  | Char | SignedChar | UnsignedChar
  | Short | UnsignedShort
  | Int | UnsignedInt
  | Long | UnsignedLong
  | LongLong | UnsignedLongLong
  | Float | Double
  | OtherType (name : string).

(** The element types that have a specialisation, in source order. *)
Definition registered_types : list ctype :=
  [ Char; SignedChar; UnsignedChar; Short; UnsignedShort; Int; UnsignedInt;
    Long; UnsignedLong; LongLong; UnsignedLongLong; Float; Double ].

Definition is_registered (T : ctype) : bool :=
  match T with
  | OtherType _ => false
  | _ => true
  end.

(** [sizeof] under the two usual 64-bit data models; [long] is the only type
    of the registry on which they differ. *)
Definition sizeof_LLP64 (T : ctype) : N :=
  match T with
  | Char | SignedChar | UnsignedChar => 1
  | Short | UnsignedShort => 2
  | Int | UnsignedInt => 4
  | Long | UnsignedLong => 4
  | LongLong | UnsignedLongLong => 8
  | Float => 4
  | Double => 8
  | OtherType _ => 1
  end%N.

Definition sizeof_LP64 (T : ctype) : N :=
  match T with
  | Long | UnsignedLong => 8%N
  | _ => sizeof_LLP64 T
  end.

Record ValType : Type := mk_ValType {
  elem_size : N;
  typestr   : string
}.

Open Scope string_scope.

Section Encoding.

(** The platform's [sizeof] operator. *)
Variable sizeof : ctype -> N.

Definition ValType_of (T : ctype) : ValType :=
  match T with
  | Char             => mk_ValType (sizeof Char) "c"
  | SignedChar       => mk_ValType (sizeof SignedChar) "b"
  | UnsignedChar     => mk_ValType (sizeof UnsignedChar) "B"
  | Short            => mk_ValType (sizeof Short) "h"
  | UnsignedShort    => mk_ValType (sizeof UnsignedShort) "H"
  | Int              => mk_ValType (sizeof Int) "i"
  | UnsignedInt      => mk_ValType (sizeof UnsignedInt) "I"
  | Long             => mk_ValType (sizeof Long) "l"
  | UnsignedLong     => mk_ValType (sizeof UnsignedLong) "L"
  | LongLong         => mk_ValType (sizeof LongLong) "q"
  | UnsignedLongLong => mk_ValType (sizeof UnsignedLongLong) "Q"
  | Float            => mk_ValType (sizeof Float) "f"
  | Double           => mk_ValType (sizeof Double) "d"
  | OtherType _      => mk_ValType 0%N "0"
  end.

(* ---------------------------------------------------------------- *)
(** ** Container adapters *)

(** What the library reads of a container: its element type, the address
    of its contiguous storage and its dimensions. *)
Inductive container : Type :=
  | StdVector  (value_type : ctype) (data : N) (size : N)
  | EigenDense (value_type : ctype) (data : N) (rows cols : N).

Definition value_type (cont : container) : ctype :=
  match cont with
  | StdVector T _ _ => T
  | EigenDense T _ _ _ => T
  end.

(** [cont.size()]; for an Eigen object this is [rows() * cols()]. *)
Definition cont_size (cont : container) : N :=
  match cont with
  | StdVector _ _ n => n
  | EigenDense _ _ r c => (r * c)%N
  end.

(** [std::to_string] of a non-negative integer. *)
Definition to_string (n : N) : string :=
  NilEmpty.string_of_uint (N.to_uint n).

Definition shape_str (cont : container) : string :=
  match cont with
  | StdVector _ _ n => ("(" ++ to_string n) ++ ",)"
  | EigenDense _ _ r c => ((("(" ++ to_string r) ++ ",") ++ to_string c) ++ ")"
  end.

Definition size_str (cont : container) : string :=
  to_string (cont_size cont).

Definition void_ptr (cont : container) : N :=
  match cont with
  | StdVector _ d _ => d
  | EigenDense _ d _ _ => d
  end.

(* ---------------------------------------------------------------- *)
(** ** [create_header] *)

Definition create_header (key : string) (cont : container) : string :=
  let header := "data|" in
  let header := header ++ key in
  let header := header ++ "|" in
  let header := header ++ typestr (ValType_of (value_type cont)) in
  let header := header ++ "|" in
  let header := header ++ size_str cont in
  let header := header ++ "|" in
  let header := header ++ shape_str cont in
  header.

(* ---------------------------------------------------------------- *)
(** ** The session: [push], [raw], [send_container], [data_args] *)

(** A transport message: either the library copied the bytes into the
    message ([zmq::message_t(ptr, len)], [zmq::message_t(string)]), or the
    message refers to caller storage ([zmq::message_t(ptr, len, ffn, hint)]
    with the no-op [custom_dealloc]). *)
Inductive message : Type :=
  | Copied (bytes : string)
  | ZeroCopy (data : N) (nbytes : N).

(** The object state: what has been handed to [socket_.send] so far, in
    order, and the contents of the [plot_cmds_] stream. *)
Record cppyplot : Type := mk_cppyplot {
  socket_    : list message;
  plot_cmds_ : string
}.

Definition socket_send (msg : message) (self : cppyplot) : cppyplot :=
  mk_cppyplot (socket_ self ++ [msg]) (plot_cmds_ self).

Definition push (cmds : string) (self : cppyplot) : cppyplot :=
  mk_cppyplot (socket_ self) ((plot_cmds_ self ++ cmds) ++ NL).

(** [raw(input_cmds)]: the array decays to a [const char] pointer when it
    is passed to [dedent_string], so the view ends at the first zero
    character;
    [input_cmds] holds the characters of the array before its terminating
    zero. *)
Definition raw (input_cmds : string) (self : cppyplot) : option cppyplot :=
  and_then (dedent_string (c_str_view input_cmds)) (fun d =>
    Some (mk_cppyplot (socket_ self) (plot_cmds_ self ++ d))).

(** [ValType<elem_type>::elem_size * cont.size()], a [std::size_t]. *)
Definition payload_size (cont : container) : N :=
  ((elem_size (ValType_of (value_type cont)) * cont_size cont) mod 2 ^ 64)%N.

Definition send_container (key : string) (cont : container)
    (self : cppyplot) : cppyplot :=
  let data_header := create_header key cont in
  let self := socket_send (Copied data_header) self in
  socket_send (ZeroCopy (void_ptr cont) (payload_size cont)) self.

(** The fold expression [(send_container(args.first, args.second), ...)]. *)
Fixpoint send_containers (args : list (string * container))
    (self : cppyplot) : cppyplot :=
  match args with
  | [] => self
  | arg :: args' => send_containers args' (send_container (fst arg) (snd arg) self)
  end.

Definition data_args (args : list (string * container))
    (self : cppyplot) : cppyplot :=
  let self := send_containers args self in
  let self := socket_send (Copied (plot_cmds_ self)) self in
  let self := socket_send (Copied "finalize") self in
  mk_cppyplot (socket_ self) "".

(** The destructor. *)
Definition destroy (self : cppyplot) : cppyplot :=
  socket_send (Copied "exit") self.

End Encoding.


(* ------------------------------------------------------------------ *)
(** ** Reading a header back

    The consumer's side of the shape grammar
    ["(" dims ")"], [dims] being empty, one integer followed by a comma, or
    two integers separated by a comma.  These definitions follow the
    documented grammar, not the producer code; they are what the element
    count of a header is compared with. *)

Definition parse_N (field : string) : option N :=
  option_map N.of_uint (NilEmpty.uint_of_string field).

(** Reads the text after the opening parenthesis; [field] is the current
    field read so far, [dims] the finished dimensions, last first. *)
Fixpoint parse_dims (s field : string) (dims : list N) : option (list N) :=
  match s with
  | EmptyString => None
  | String c s' =>
      if Ascii.eqb c ")" then
        match s', field, dims with
        | EmptyString, EmptyString, [] => Some []
        | EmptyString, EmptyString, [n] => Some [n]
        | EmptyString, String _ _, [n] =>
            option_map (fun m => [n; m]) (parse_N field)
        | _, _, _ => None
        end
      else if Ascii.eqb c "," then
        match field, dims with
        | String _ _, [] =>
            match parse_N field with
            | Some n => parse_dims s' EmptyString [n]
            | None => None
            end
        | _, _ => None
        end
      else parse_dims s' (field ++ String c EmptyString) dims
  end.

Definition parse_shape (shape : string) : option (list N) :=
  match shape with
  | String "(" s => parse_dims s EmptyString []
  | _ => None
  end.

(** The characters the two text routines count as indentation. *)
Definition is_blank (c : ascii) : bool :=
  Ascii.eqb c space || Ascii.eqb c tab.

(** The tail of a text after its leading blank lines and the indentation
    of the first occupied line: nothing, or a character that is neither
    indentation nor a newline. *)
Definition occupied (rest : string_view) : Prop :=
  rest = [] \/
  exists c r, rest = c :: r /\ is_blank c = false /\ Ascii.eqb c newline = false.

(** Concrete inputs used to exercise the general statements. *)
Definition example_batch : list (string * container) :=
  [ ("x", StdVector Float 4096 3); ("m", EigenDense Double 8192 2 2) ].

Definition example_session : cppyplot :=
  mk_cppyplot [] ("plot(x)" ++ NL).

Definition example_bool_vector : container :=
  StdVector (OtherType "bool") 4096 7.

Definition example_text : string :=
  "  a" ++ NL ++ "    b" ++ NL.

(** A text without the two delimiters of the shape grammar. *)
Fixpoint no_delim (s : string) : bool :=
  match s with
  | EmptyString => true
  | String c s' =>
      negb (Ascii.eqb c ")") && negb (Ascii.eqb c ",") && no_delim s'
  end.

(** The product of the dimensions of a shape. *)
Definition dims_product (dims : list N) : N :=
  fold_right N.mul 1%N dims.

(** A container whose storage has a size in bytes that a [std::size_t]
    holds. *)
Definition storage_fits (sizeof : ctype -> N) (cont : container) : Prop :=
  (elem_size (ValType_of sizeof (value_type cont)) * cont_size cont < 2 ^ 64)%N.

(** The two messages [send_container] produces for one pair. *)
Definition framed_pair (sizeof : ctype -> N) (arg : string * container)
    : list message :=
  [ Copied (create_header sizeof (fst arg) (snd arg));
    ZeroCopy (void_ptr (snd arg))
             (elem_size (ValType_of sizeof (value_type (snd arg)))
              * cont_size (snd arg))%N ].

(** The number of newline characters of a text. *)
Definition count_newlines (s : string) : nat :=
  List.length (filter (fun c => Ascii.eqb c newline) (list_ascii_of_string s)).

(** Whether a text is empty or ends with a newline, that is, is made of
    newline-terminated lines only. *)
Definition newline_terminated (s : string) : bool :=
  match rev (list_ascii_of_string s) with
  | [] => true
  | c :: _ => Ascii.eqb c newline
  end.

(** Whether a character occurs in a text. *)
Definition occurs (c : ascii) (s : string) : bool :=
  existsb (Ascii.eqb c) (list_ascii_of_string s).

(* ------------------------------------------------------------------ *)
(** ** Texts as lines

    The shape of the texts [raw] is meant for: some blank lines, then lines
    made of an indentation, a body that starts with an occupied character,
    and a newline, then possibly an unterminated rest. *)

Record text_line : Type := mk_text_line {
  indent : string_view;
  body   : string_view
}.

Definition render_line (l : text_line) : string_view :=
  (indent l ++ body l ++ [newline])%list.

Definition blank_line (ws : string_view) : string_view :=
  (ws ++ [newline])%list.

(** The line without the first [k] characters of its indentation. *)
Definition dedented_line (k : Z) (l : text_line) : string_view :=
  (skipn (Z.to_nat k) (indent l) ++ body l ++ [newline])%list.

Definition all_blank (ws : string_view) : Prop :=
  Forall (fun c => is_blank c = true) ws.

Definition no_newline (s : string_view) : Prop :=
  Forall (fun c => Ascii.eqb c newline = false) s.

(** A line indented by at least [k] whose body is not empty, starts with a
    character that is not indentation, and holds no newline. *)
Definition well_indented (k : Z) (l : text_line) : Prop :=
  all_blank (indent l)
  /\ k <= sv_length (indent l)
  /\ no_newline (body l)
  /\ exists c r, body l = c :: r /\ is_blank c = false.

(** What precedes the first occupied line: characters that are indentation
    or newlines, ending, unless empty, with a newline. *)
Definition leading_blank_lines (pre : string_view) : Prop :=
  Forall (fun c => is_blank c = true \/ c = newline) pre
  /\ (pre = [] \/ exists p, pre = (p ++ [newline])%list).

(** A line as the loop of [dedent_string] delimits it: indentation, a
    character that is not indentation (it may be a newline), characters up
    to the next newline, and that newline; at least [k] characters long. *)
Definition loop_line (k : Z) (l : text_line) : Prop :=
  all_blank (indent l)
  /\ (exists c r, body l = c :: r /\ is_blank c = false /\ no_newline r)
  /\ k <= sv_length (render_line l).

(* ------------------------------------------------------------------ *)
(** ** Sessions

    Sequences of calls on one object, and what is looked for in the
    messages they send. *)

(** A text without the field delimiter of headers. *)
Fixpoint no_pipe (s : string) : bool :=
  match s with
  | EmptyString => true
  | String c s' => negb (Ascii.eqb c "|") && no_pipe s'
  end.

(** Two containers of the same kind and dimensions. *)
Definition same_shape (c1 c2 : container) : Prop :=
  match c1, c2 with
  | StdVector _ _ n1, StdVector _ _ n2 => n1 = n2
  | EigenDense _ _ r1 k1, EigenDense _ _ r2 k2 => r1 = r2 /\ k1 = k2
  | _, _ => False
  end.

(** The two messages of [send_container], the payload length as the code
    computes it. *)
Definition sent_pair (sizeof : ctype -> N) (arg : string * container)
    : list message :=
  [ Copied (create_header sizeof (fst arg) (snd arg));
    ZeroCopy (void_ptr (snd arg)) (payload_size sizeof (snd arg)) ].

(** The object after construction: nothing sent, no command text. *)
Definition fresh : cppyplot := mk_cppyplot [] "".

Inductive session_op : Type :=
  | OpPush (cmds : string)
  | OpDataArgs (args : list (string * container)).

Definition run_op (sizeof : ctype -> N) (self : cppyplot) (op : session_op)
    : cppyplot :=
  match op with
  | OpPush cmds => push cmds self
  | OpDataArgs args => data_args sizeof args self
  end.

Definition run_session (sizeof : ctype -> N) (ops : list session_op)
    (self : cppyplot) : cppyplot :=
  fold_left (run_op sizeof) ops self.

Definition is_batch (op : session_op) : bool :=
  match op with
  | OpDataArgs _ => true
  | OpPush _ => false
  end.

(** Successive [push] calls. *)
Definition push_all (cmds : list string) (self : cppyplot) : cppyplot :=
  fold_left (fun st c => push c st) cmds self.

(** The text successive [push] calls add: every command followed by a
    newline. *)
Definition pushed_text (cmds : list string) : string :=
  fold_right (fun c acc => (c ++ NL) ++ acc) "" cmds.

(** Whether a message is the copied text [s]. *)
Definition is_copied (s : string) (m : message) : bool :=
  match m with
  | Copied b => String.eqb b s
  | ZeroCopy _ _ => false
  end.

(** How many copied messages of a log are the text [s]; payload messages,
    whose bytes are the caller's, are not counted. *)
Definition count_copied (s : string) (log : list message) : nat :=
  List.length (filter (is_copied s) log).

(* ------------------------------------------------------------------ *)
(** ** The same loop on a text and on a suffix of it *)

(** The loop state on a text, from the state on the suffix that starts [p]
    characters later: inside a line the recorded start moves by [p]. *)
Definition shift_state (p : Z) (st : dedent_state) : dedent_state :=
  mk_dedent_state (out_str st)
                  (if process_spaces st then line_start st
                   else line_start st + p)
                  (process_spaces st) (cur_space_count st).

(** What the loop keeps true of its state before it reads index [i]. *)
Definition state_inv (i : Z) (st : dedent_state) : Prop :=
  0 <= cur_space_count st
  /\ if process_spaces st
     then line_start st = -1 /\ cur_space_count st <= i
     else cur_space_count st <= line_start st /\ line_start st < i.

(* ------------------------------------------------------------------ *)
(** ** [compile_time_str] and [DATA_PAIR] *)

(** [build_string(str, std::index_sequence<indices...>)]: the string of the
    characters [str[indices]...]. *)
Definition build_string (str : list ascii) (indices : list nat) : string :=
  string_of_list_ascii (map (fun i => nth i str zero) indices).

(** [compile_time_str(str)] for an array [str] of [N] characters: the
    indices are [0 .. N-2]. *)
Definition compile_time_str (str : list ascii) : string :=
  build_string str (seq 0 (List.length str - 1)).

(** [STRINGIFY(X)]: the array that holds the identifier's text and the
    terminating zero. *)
Definition STRINGIFY (identifier : string) : list ascii :=
  (list_ascii_of_string identifier ++ [zero])%list.

(** [DATA_PAIR(X)], [X] being the identifier and [value] the object it
    names. *)
Definition DATA_PAIR (identifier : string) (value : container)
    : string * container :=
  (compile_time_str (STRINGIFY identifier), value).

(* ================================================================== *)
(** * Properties *)

(* ------------------------------------------------------------------ *)
(** ** Strings *)

Lemma append_assoc (a b c : string) : (a ++ b) ++ c = a ++ (b ++ c).
Proof.
  induction a as [|x a IH]; simpl; [reflexivity | now rewrite IH].
Qed.

Lemma append_nil_r (a : string) : a ++ "" = a.
Proof.
  induction a as [|x a IH]; simpl; [reflexivity | now rewrite IH].
Qed.

(* ------------------------------------------------------------------ *)
(** ** The worked examples of [dedent_string] *)

(** C5: [dedent_string] maps ["  a\n  b\n"] to ["a\nb\n"] and
    ["  a\n    b\n"] to ["a\n  b\n"]: an indentation equal to the first
    line's is removed, indentation beyond it is kept. *)
Theorem dedent_string_examples :
  dedent_string ("  a" ++ NL ++ "  b" ++ NL) = Some ("a" ++ NL ++ "b" ++ NL)
  /\ dedent_string ("  a" ++ NL ++ "    b" ++ NL)
     = Some ("a" ++ NL ++ "  b" ++ NL).
Proof.
  split; vm_compute; reflexivity.
Qed.

(** C1 (the code departs from it): on ["  a\n b\n"] the reference
    indentation is 2 and the second line has one leading space.  The claim
    asks for ["a\nb\n"]; the code returns ["a\n\n"], so the character [b] is
    lost.  With a deeper reference indentation, ["    a\nb\n"], the adjusted
    start lies past the end of the text and [substr] throws. *)
Theorem dedent_string_short_indent :
  dedent_string ("  a" ++ NL ++ " b" ++ NL) = Some ("a" ++ NL ++ NL)
  /\ occurs "b" ("  a" ++ NL ++ " b" ++ NL) = true
  /\ occurs "b" ("a" ++ NL ++ NL) = false
  /\ dedent_string ("  a" ++ NL ++ "bcd" ++ NL) = Some ("a" ++ NL ++ "d" ++ NL)
  /\ dedent_string ("    a" ++ NL ++ "b" ++ NL) = None.
Proof.
  repeat split; vm_compute; reflexivity.
Qed.

(** C2 (the code departs from it): on ["  a\n\n  b\n"] the empty second
    line should stay a line of its own and the third line should lose its
    two spaces, giving ["a\n\nb\n"].  The code returns ["a\n b\n"]: three
    lines go in, two come out, and the third keeps one space.  When the
    blank line carries the reference indentation, ["  a\n  \n  b\n"], the
    line is kept but the line after it is not dedented. *)
Theorem dedent_string_blank_line :
  dedent_string ("  a" ++ NL ++ NL ++ "  b" ++ NL) = Some ("a" ++ NL ++ " b" ++ NL)
  /\ count_newlines ("  a" ++ NL ++ NL ++ "  b" ++ NL) = 3%nat
  /\ count_newlines ("a" ++ NL ++ " b" ++ NL) = 2%nat
  /\ dedent_string ("  a" ++ NL ++ "  " ++ NL ++ "  b" ++ NL)
     = Some ("a" ++ NL ++ NL ++ "  b" ++ NL).
Proof.
  repeat split; vm_compute; reflexivity.
Qed.

(** C10 (the code departs from it): on ["   a\nb\ncc"] the output should be
    made of newline-terminated lines only and the unterminated last line
    [cc] should not appear.  The code returns ["a\nc"]: the under-indented
    second line moves the start of its piece past its own newline, the
    length [i - line_start + 1u] wraps, and [substr] returns the text up to
    the end of the input.  With the second line indented like the first the
    last line is dropped, as the claim says. *)
Theorem dedent_string_unterminated_fragment :
  dedent_string ("   a" ++ NL ++ "b" ++ NL ++ "cc") = Some ("a" ++ NL ++ "c")
  /\ newline_terminated ("a" ++ NL ++ "c") = false
  /\ dedent_string ("   a" ++ NL ++ "   b" ++ NL ++ "cc")
     = Some ("a" ++ NL ++ "b" ++ NL)
  /\ newline_terminated ("a" ++ NL ++ "b" ++ NL) = true.
Proof.
  split; [|split; [|split]].
  - vm_compute; reflexivity.
  - reflexivity.
  - vm_compute; reflexivity.
  - reflexivity.
Qed.

(** C4 (the code departs from it): idempotence asks that [dedent_string]
    return a string on every text and return that string again when it is
    applied to it.  On ["    a\nb\n"] (an under-indented second line, the
    slip of C1) and on ["    a\n\n\n"] (blank lines, the slip of C2) the
    adjusted start lies past the end of the text and [substr] throws:
    [dedent_string] returns no string, and neither does [dedent_string]
    applied twice. *)
Theorem dedent_string_throws :
  dedent_string ("    a" ++ NL ++ "b" ++ NL) = None
  /\ and_then (dedent_string ("    a" ++ NL ++ "b" ++ NL)) dedent_string = None
  /\ dedent_string ("    a" ++ NL ++ NL ++ NL) = None
  /\ and_then (dedent_string ("    a" ++ NL ++ NL ++ NL)) dedent_string = None.
Proof.
  repeat split; vm_compute; reflexivity.
Qed.

(* ------------------------------------------------------------------ *)
(** ** The type registry *)

Section Registry.

Variable sizeof : ctype -> N.

(** The tags of the registered types, in source order. *)
Lemma registered_typestr :
  map (fun T => typestr (ValType_of sizeof T)) registered_types
  = ["c"; "b"; "B"; "h"; "H"; "i"; "I"; "l"; "L"; "q"; "Q"; "f"; "d"].
Proof. reflexivity. Qed.

Lemma NoDup_tag_alphabet :
  NoDup ["c"; "b"; "B"; "h"; "H"; "i"; "I"; "l"; "L"; "q"; "Q"; "f"; "d"].
Proof.
  repeat (constructor; [simpl; intuition discriminate|]).
  constructor.
Qed.

(** C7: thirteen element types are registered (they are exactly the
    types that are not handled by the primary template); each has a tag of
    length 1, the tags are [c,b,B,h,H,i,I,l,L,q,Q,f,d] in this order and
    pairwise distinct, and the width recorded for a registered type is its
    [sizeof]. *)
Theorem registry_table :
  List.length registered_types = 13%nat
  /\ forallb is_registered registered_types = true
  /\ (forall T, is_registered T = true <-> In T registered_types)
  /\ map (fun T => typestr (ValType_of sizeof T)) registered_types
     = ["c"; "b"; "B"; "h"; "H"; "i"; "I"; "l"; "L"; "q"; "Q"; "f"; "d"]
  /\ Forall (fun T => String.length (typestr (ValType_of sizeof T)) = 1%nat
                      /\ elem_size (ValType_of sizeof T) = sizeof T)
            registered_types
  /\ NoDup (map (fun T => typestr (ValType_of sizeof T)) registered_types).
Proof.
  split; [reflexivity|].
  split; [reflexivity|].
  split.
  { intros T; split.
    - destruct T; simpl; intros H; try discriminate; tauto.
    - simpl; intros H.
      repeat (destruct H as [H|H]; [subst T; reflexivity|]).
      contradiction. }
  split; [apply registered_typestr|].
  split.
  { unfold registered_types.
    repeat (constructor; [split; reflexivity|]).
    constructor. }
  rewrite registered_typestr.
  apply NoDup_tag_alphabet.
Qed.

(** The primary template: tag ["0"] and width 0. *)
Lemma ValType_unregistered (T : ctype) :
  is_registered T = false -> ValType_of sizeof T = mk_ValType 0 "0".
Proof.
  destruct T; simpl; intros H; try discriminate; reflexivity.
Qed.

(* ---------------------------------------------------------------- *)
(** ** Headers *)

(** C6: the header is ["data|" + name + "|" + tag + "|" + count + "|" +
    shape] for every name and container; [create_header] is a total
    function of the name, which it embeds as it is (also when it contains
    the delimiter). *)
Theorem create_header_format (key : string) (cont : container) :
  create_header sizeof key cont
  = "data|" ++ key ++ "|" ++ typestr (ValType_of sizeof (value_type cont))
    ++ "|" ++ size_str cont ++ "|" ++ shape_str cont.
Proof.
  unfold create_header.
  now rewrite !append_assoc.
Qed.

Example create_header_delimiter_in_name :
  create_header sizeof "a|b" (StdVector Float 4096 3) = "data|a|b|f|3|(3,)".
Proof. reflexivity. Qed.

Example create_header_matrix :
  create_header sizeof "m" (EigenDense Double 4096 2 5) = "data|m|d|10|(2,5)".
Proof. reflexivity. Qed.

(* ---------------------------------------------------------------- *)
(** ** Message sequencing *)

Lemma send_containers_plot_cmds args : forall self,
  plot_cmds_ (send_containers sizeof args self) = plot_cmds_ self.
Proof.
  induction args as [|a args IH]; intros self; simpl; [reflexivity|].
  now rewrite IH.
Qed.

Lemma payload_size_fits (cont : container) :
  storage_fits sizeof cont ->
  payload_size sizeof cont
  = (elem_size (ValType_of sizeof (value_type cont)) * cont_size cont)%N.
Proof.
  unfold storage_fits, payload_size; intros H.
  now apply N.mod_small.
Qed.

Lemma send_containers_socket args : forall self,
  Forall (fun a => storage_fits sizeof (snd a)) args ->
  socket_ (send_containers sizeof args self)
  = (socket_ self ++ flat_map (framed_pair sizeof) args)%list.
Proof.
  induction args as [|a args IH]; intros self Hfit; simpl.
  - now rewrite List.app_nil_r.
  - inversion Hfit as [|? ? Ha Hargs]; subst.
    rewrite IH by assumption.
    unfold send_container, socket_send; simpl.
    rewrite (payload_size_fits _ Ha).
    now rewrite <- !List.app_assoc.
Qed.

Lemma length_framed args :
  List.length (flat_map (framed_pair sizeof) args) = (2 * List.length args)%nat.
Proof.
  induction args as [|a args IH]; simpl; [reflexivity|].
  rewrite IH; lia.
Qed.

(** C3: for a batch of N pairs, [data_args] hands to the socket, after
    what was sent before and in the order of the batch, a header message
    and a payload message per pair (the payload refers to the container's
    storage and has count times width bytes), then the command text, then
    ["finalize"]: 2N+2 messages; afterwards the command buffer is empty. *)
Theorem data_args_framing (args : list (string * container)) (self : cppyplot) :
  Forall (fun a => storage_fits sizeof (snd a)) args ->
  socket_ (data_args sizeof args self)
  = (socket_ self
     ++ flat_map (framed_pair sizeof) args
     ++ [Copied (plot_cmds_ self); Copied "finalize"])%list
  /\ List.length (flat_map (framed_pair sizeof) args
                  ++ [Copied (plot_cmds_ self); Copied "finalize"])%list
     = (2 * List.length args + 2)%nat
  /\ plot_cmds_ (data_args sizeof args self) = "".
Proof.
  intros Hfit.
  split; [|split].
  - unfold data_args, socket_send; simpl.
    rewrite send_containers_plot_cmds, send_containers_socket by assumption.
    now rewrite <- !List.app_assoc.
  - rewrite length_app, length_framed; simpl; lia.
  - reflexivity.
Qed.

(** C8: for an element type without a specialisation the registry gives
    tag ["0"] and width 0; [create_header] and [send_container] are total,
    the header carries ["0"] in the tag field and the payload message has 0
    bytes. *)
Theorem unregistered_type_sentinel (key : string) (cont : container)
    (self : cppyplot) :
  is_registered (value_type cont) = false ->
  ValType_of sizeof (value_type cont) = mk_ValType 0 "0"
  /\ create_header sizeof key cont
     = "data|" ++ key ++ "|0|" ++ size_str cont ++ "|" ++ shape_str cont
  /\ socket_ (send_container sizeof key cont self)
     = (socket_ self
        ++ [ Copied ("data|" ++ key ++ "|0|" ++ size_str cont ++ "|"
                     ++ shape_str cont);
             ZeroCopy (void_ptr cont) 0 ])%list.
Proof.
  intros Hu.
  pose proof (ValType_unregistered _ Hu) as Hv.
  assert (Hh : create_header sizeof key cont
               = "data|" ++ key ++ "|0|" ++ size_str cont ++ "|" ++ shape_str cont).
  { rewrite create_header_format, Hv; reflexivity. }
  split; [exact Hv|].
  split; [exact Hh|].
  unfold send_container, socket_send; simpl.
  rewrite Hh.
  unfold payload_size; rewrite Hv; simpl.
  now rewrite <- List.app_assoc.
Qed.

End Registry.

(* ------------------------------------------------------------------ *)
(** ** Shapes and element counts *)

Lemma no_delim_string_of_uint (d : Decimal.uint) :
  no_delim (NilEmpty.string_of_uint d) = true.
Proof.
  induction d; simpl; auto.
Qed.

Lemma to_string_not_empty (n : N) : to_string n <> "".
Proof.
  unfold to_string.
  destruct n as [|p]; simpl; [discriminate|].
  pose proof (DecimalPos.Unsigned.to_uint_nonnil p) as Hp.
  destruct (Pos.to_uint p); simpl; try discriminate.
  now elim Hp.
Qed.

Lemma parse_N_to_string (n : N) : parse_N (to_string n) = Some n.
Proof.
  unfold parse_N, to_string.
  rewrite NilEmpty.usu; simpl.
  now rewrite DecimalN.Unsigned.of_to.
Qed.

(** Reading a run of non-delimiters only extends the current field. *)
Lemma parse_dims_field (digits : string) : forall s field dims,
  no_delim digits = true ->
  parse_dims (digits ++ s) field dims = parse_dims s (field ++ digits) dims.
Proof.
  induction digits as [|c digits IH]; intros s field dims Hd; simpl.
  - now rewrite append_nil_r.
  - simpl in Hd.
    destruct (Ascii.eqb c ")"); [discriminate|].
    destruct (Ascii.eqb c ","); [discriminate|].
    simpl in Hd.
    rewrite IH by assumption.
    now rewrite append_assoc.
Qed.

Lemma parse_dims_to_string (n : N) (s : string) (dims : list N) :
  parse_dims (to_string n ++ s) "" dims = parse_dims s (to_string n) dims.
Proof.
  unfold to_string.
  now rewrite parse_dims_field by apply no_delim_string_of_uint.
Qed.

Lemma parse_shape_vector (T : ctype) (d n : N) :
  parse_shape (shape_str (StdVector T d n)) = Some [n].
Proof.
  unfold shape_str.
  rewrite append_assoc; simpl.
  rewrite parse_dims_to_string; simpl.
  pose proof (to_string_not_empty n) as Hne.
  rewrite parse_N_to_string.
  destruct (to_string n); [now elim Hne | reflexivity].
Qed.

Lemma parse_shape_matrix (T : ctype) (d r c : N) :
  parse_shape (shape_str (EigenDense T d r c)) = Some [r; c].
Proof.
  unfold shape_str.
  rewrite !append_assoc; simpl.
  rewrite parse_dims_to_string; simpl.
  pose proof (to_string_not_empty r) as Hr.
  rewrite parse_N_to_string.
  destruct (to_string r) eqn:Er; [now elim Hr|].
  rewrite parse_dims_to_string; simpl.
  pose proof (to_string_not_empty c) as Hc.
  rewrite parse_N_to_string.
  destruct (to_string c); [now elim Hc | reflexivity].
Qed.

(** C9: a sequence of length N has shape ["(N,)"] and count N; a matrix
    with R rows and C columns has shape ["(R,C)"] and count R*C; and for
    every container the count written in the header is the product of the
    dimensions read back from its shape string. *)
Theorem shape_and_count :
  (forall T d n,
      shape_str (StdVector T d n) = "(" ++ to_string n ++ ",)"
      /\ size_str (StdVector T d n) = to_string n)
  /\ (forall T d r c,
      shape_str (EigenDense T d r c) = "(" ++ to_string r ++ "," ++ to_string c ++ ")"
      /\ size_str (EigenDense T d r c) = to_string (r * c))
  /\ (forall cont, exists dims,
      parse_shape (shape_str cont) = Some dims
      /\ parse_N (size_str cont) = Some (dims_product dims)
      /\ cont_size cont = dims_product dims).
Proof.
  split; [|split].
  - intros T d n; split; [|reflexivity].
    unfold shape_str; now rewrite append_assoc.
  - intros T d r c; split; [|reflexivity].
    unfold shape_str; now rewrite !append_assoc.
  - intros [T d n | T d r c].
    + exists [n].
      rewrite parse_shape_vector.
      unfold size_str, dims_product; simpl.
      rewrite N.mul_1_r, parse_N_to_string; auto.
    + exists [r; c].
      rewrite parse_shape_matrix.
      unfold size_str, dims_product; simpl.
      rewrite N.mul_1_r, parse_N_to_string; auto.
Qed.

Example shape_vector_5 :
  shape_str (StdVector Int 4096 5) = "(5,)"
  /\ size_str (StdVector Int 4096 5) = "5"
  /\ parse_shape "(5,)" = Some [5%N].
Proof. repeat split; reflexivity. Qed.

Example shape_matrix_3_4 :
  shape_str (EigenDense Double 4096 3 4) = "(3,4)"
  /\ size_str (EigenDense Double 4096 3 4) = "12"
  /\ parse_shape "(3,4)" = Some [3%N; 4%N].
Proof. repeat split; reflexivity. Qed.

(* ------------------------------------------------------------------ *)
(** ** Conversions that do not wrap *)

Lemma to_unsigned_small (z : Z) : 0 <= z < 2 ^ 32 -> to_unsigned z = z.
Proof. intros H; unfold to_unsigned; now apply Z.mod_small. Qed.

Lemma to_int_small (z : Z) : - 2 ^ 31 <= z < 2 ^ 31 -> to_int z = z.
Proof.
  intros H; unfold to_int.
  rewrite Z.mod_small; lia.
Qed.

Lemma to_size_t_small (z : Z) : 0 <= z < 2 ^ 64 -> to_size_t z = z.
Proof. intros H; unfold to_size_t; now apply Z.mod_small. Qed.

Lemma sv_length_app (a b : string_view) :
  sv_length (a ++ b)%list = sv_length a + sv_length b.
Proof. unfold sv_length; rewrite length_app; lia. Qed.

Lemma sv_length_nonneg (a : string_view) : 0 <= sv_length a.
Proof. unfold sv_length; lia. Qed.

Lemma not_blank_test (c : ascii) :
  negb (Ascii.eqb c space) && negb (Ascii.eqb c tab) = negb (is_blank c).
Proof. unfold is_blank; now rewrite negb_orb. Qed.

Lemma skipn_sv_length (a b : string_view) :
  skipn (Z.to_nat (sv_length a)) (a ++ b)%list = b.
Proof.
  unfold sv_length; rewrite Nat2Z.id.
  rewrite skipn_app, skipn_all, Nat.sub_diag; reflexivity.
Qed.

(* ------------------------------------------------------------------ *)
(** ** What [non_empty_line_idx] finds *)

Lemma non_empty_line_scan_spec (rest : string_view) :
  forall (pre ws : string_view) (i new_line_pos num_spaces : Z),
    sv_length (pre ++ ws ++ rest)%list <= INT_MAX ->
    Forall (fun c => is_blank c = true) ws ->
    i = sv_length pre + sv_length ws ->
    new_line_pos = sv_length pre - 1 ->
    num_spaces = sv_length ws ->
    exists pre' ws' rest',
      (pre ++ ws ++ rest = pre' ++ ws' ++ rest')%list
      /\ non_empty_line_scan rest i new_line_pos num_spaces
         = (sv_length pre', sv_length ws')
      /\ Forall (fun c => is_blank c = true) ws'
      /\ occupied rest'.
Proof.
  induction rest as [|c rest IH]; intros pre ws i nlp ns Hlen Hws Hi Hnlp Hns.
  - exists pre, ws, []; simpl.
    repeat split; auto; [|now left].
    subst nlp ns.
    pose proof (sv_length_nonneg pre).
    rewrite !sv_length_app in Hlen. unfold INT_MAX in Hlen.
    pose proof (sv_length_nonneg ws).
    pose proof (sv_length_nonneg (@nil ascii)).
    rewrite to_int_small by lia.
    f_equal; lia.
  - pose proof (sv_length_nonneg pre) as Hp.
    pose proof (sv_length_nonneg ws) as Hw.
    pose proof (sv_length_nonneg rest) as Hr.
    assert (Hlen' : sv_length pre + sv_length ws + 1 + sv_length rest <= 2 ^ 31 - 1).
    { rewrite !sv_length_app in Hlen.
      change (c :: rest) with ([c] ++ rest)%list in Hlen.
      rewrite sv_length_app in Hlen.
      unfold INT_MAX in Hlen. change (sv_length [c]) with 1 in Hlen. lia. }
    simpl.
    destruct (Ascii.eqb c newline) eqn:Enl.
    + destruct (IH (pre ++ ws ++ [c])%list [] (to_unsigned (i + 1)) (to_int i) 0)
        as (pre' & ws' & rest' & Heq & Hscan & Hb & Hocc).
      * rewrite <- !List.app_assoc; simpl. exact Hlen.
      * constructor.
      * subst i. rewrite to_unsigned_small by lia.
        rewrite !sv_length_app. change (sv_length [c]) with 1.
        change (sv_length []) with 0. lia.
      * subst i. rewrite to_int_small by lia.
        rewrite !sv_length_app. change (sv_length [c]) with 1. lia.
      * reflexivity.
      * exists pre', ws', rest'.
        repeat split; auto.
        rewrite <- Heq, <- !List.app_assoc; reflexivity.
    + rewrite not_blank_test.
      destruct (is_blank c) eqn:Eb; simpl.
      * destruct (IH pre (ws ++ [c])%list (to_unsigned (i + 1)) nlp
                     (to_unsigned (ns + 1)))
          as (pre' & ws' & rest' & Heq & Hscan & Hb & Hocc).
        -- rewrite <- !List.app_assoc; simpl. exact Hlen.
        -- apply Forall_app; split; [assumption|]. now constructor.
        -- subst i. rewrite to_unsigned_small by lia.
           rewrite sv_length_app. change (sv_length [c]) with 1. lia.
        -- assumption.
        -- subst ns. rewrite to_unsigned_small by lia.
           rewrite sv_length_app. change (sv_length [c]) with 1. lia.
        -- exists pre', ws', rest'.
           repeat split; auto.
           rewrite <- Heq, <- !List.app_assoc; reflexivity.
      * exists pre, ws, (c :: rest).
        repeat split; auto.
        -- subst nlp ns. rewrite to_int_small by lia. f_equal; lia.
        -- right. exists c, rest. auto.
Qed.

Lemma non_empty_line_idx_spec (raw_str : string_view) :
  sv_length raw_str <= INT_MAX ->
  exists pre ws rest,
    raw_str = (pre ++ ws ++ rest)%list
    /\ non_empty_line_idx raw_str = (sv_length pre, sv_length ws)
    /\ Forall (fun c => is_blank c = true) ws
    /\ occupied rest.
Proof.
  intros Hlen.
  destruct (non_empty_line_scan_spec raw_str [] [] 0 (-1) 0)
    as (pre & ws & rest & Heq & Hscan & Hb & Hocc); auto.
  exists pre, ws, rest. auto.
Qed.

(** On a text that is empty or starts with an occupied character the
    reference indentation is 0. *)
Lemma non_empty_line_idx_occupied (t : string_view) :
  occupied t -> non_empty_line_idx t = (0, 0).
Proof.
  intros [-> | (c & r & -> & Hb & Hnl)]; [reflexivity|].
  unfold non_empty_line_idx; simpl.
  rewrite Hnl, not_blank_test, Hb; reflexivity.
Qed.

(* ------------------------------------------------------------------ *)
(** ** The loop of [dedent_string] *)

Section DedentLoop.

Variable raw_str : string_view.
Variable num_spaces : Z.

(** The loop only ever appends to [out_str]. *)
Lemma dedent_step_appends i c st st' :
  dedent_step raw_str num_spaces i c st = Some st' ->
  exists piece, out_str st' = (out_str st ++ piece)%list.
Proof.
  unfold dedent_step; intros H.
  destruct (process_spaces st).
  - destruct (negb (Ascii.eqb c space) && negb (Ascii.eqb c tab));
      inversion H; subst; simpl; exists []; now rewrite List.app_nil_r.
  - destruct (Ascii.eqb c newline).
    + destruct (line_start st =? -1)%Z.
      * inversion H; subst; simpl; exists []; now rewrite List.app_nil_r.
      * destruct (sv_substr _ _ _) as [piece|]; [|discriminate].
        inversion H; subst; simpl. now exists piece.
    + inversion H; subst. exists []; now rewrite List.app_nil_r.
Qed.

Lemma dedent_loop_appends rest : forall i st t,
  dedent_loop raw_str num_spaces rest i st = Some t ->
  exists more, t = (out_str st ++ more)%list.
Proof.
  induction rest as [|c rest IH]; intros i st t H; simpl in H.
  - inversion H; subst. exists []; now rewrite List.app_nil_r.
  - destruct (dedent_step raw_str num_spaces i c st) as [st'|] eqn:Es;
      [|discriminate].
    destruct (dedent_step_appends _ _ _ _ Es) as [piece Hp].
    destruct (IH _ _ _ H) as [more Hm].
    exists (piece ++ more)%list.
    now rewrite Hm, Hp, List.app_assoc.
Qed.

(** Reading a run of indentation at the start of a line only counts. *)
Lemma dedent_loop_indentation ws : forall rest i out ls cur,
  Forall (fun c => is_blank c = true) ws ->
  0 <= i -> i + sv_length ws <= INT_MAX ->
  0 <= cur -> cur + sv_length ws <= INT_MAX ->
  dedent_loop raw_str num_spaces (ws ++ rest)%list i
              (mk_dedent_state out ls true cur)
  = dedent_loop raw_str num_spaces rest (i + sv_length ws)
                (mk_dedent_state out ls true (cur + sv_length ws)).
Proof.
  induction ws as [|c ws IH]; intros rest i out ls cur Hb Hi Hi' Hc Hc'.
  - simpl. change (sv_length []) with 0. now rewrite !Z.add_0_r.
  - inversion Hb as [|? ? Hbc Hbws]; subst.
    change (sv_length (c :: ws)) with (sv_length ([c] ++ ws)%list) in *.
    rewrite sv_length_app in *. change (sv_length [c]) with 1 in *.
    pose proof (sv_length_nonneg ws). unfold INT_MAX in *.
    cbn [app dedent_loop]. unfold dedent_step.
    cbn [process_spaces out_str line_start cur_space_count].
    rewrite not_blank_test, Hbc.
    cbn [negb].
    rewrite to_unsigned_small, to_int_small by lia.
    rewrite IH by (auto; lia).
    now rewrite !Z.add_assoc.
Qed.

(** Once the first occupied line has been entered at its first character
    [c], with exactly the reference indentation counted, whatever the loop
    returns is empty or starts with [c]. *)
Lemma dedent_loop_first_piece (front back : string_view) (c : ascii) :
  raw_str = (front ++ c :: back)%list ->
  sv_length raw_str <= INT_MAX ->
  0 <= num_spaces <= INT_MAX ->
  forall rest i t,
    sv_length front < i ->
    i + sv_length rest <= sv_length raw_str ->
    dedent_loop raw_str num_spaces rest i
      (mk_dedent_state [] (sv_length front) false num_spaces) = Some t ->
    t = [] \/ exists t', t = c :: t'.
Proof.
  intros Hraw Hlen Hk.
  pose proof (sv_length_nonneg front) as Hf.
  unfold INT_MAX in *.
  induction rest as [|a rest IH]; intros i t Hi Hir H.
  - inversion H; subst. now left.
  - change (sv_length (a :: rest)) with (sv_length ([a] ++ rest)%list) in Hir.
    rewrite sv_length_app in Hir. change (sv_length [a]) with 1 in Hir.
    pose proof (sv_length_nonneg rest) as Hr.
    cbn [dedent_loop] in H. unfold dedent_step in H.
    cbn [process_spaces out_str line_start cur_space_count] in H.
    rewrite (to_unsigned_small (i + 1)) in H by lia.
    destruct (Ascii.eqb a newline).
    + right.
      destruct (Z.eqb_spec (sv_length front) (-1)) as [E|_]; [lia|].
      assert (Ha : adjust_line_start (sv_length front) num_spaces num_spaces
                   = sv_length front).
      { unfold adjust_line_start.
        rewrite (to_unsigned_small num_spaces), Z.sub_diag by lia.
        change (to_unsigned 0) with 0. rewrite Z.sub_0_r.
        rewrite !(to_unsigned_small (sv_length front)) by lia.
        apply to_int_small; lia. }
      assert (Hc : piece_count i (sv_length front) = i - sv_length front + 1).
      { unfold piece_count.
        rewrite (to_unsigned_small (sv_length front)) by lia.
        rewrite (to_unsigned_small (i - sv_length front)) by lia.
        apply to_unsigned_small; lia. }
      rewrite Ha, Hc in H.
      rewrite !to_size_t_small in H by lia.
      unfold sv_substr in H.
      destruct (Z.ltb_spec (sv_length raw_str) (sv_length front)) as [E|_]; [lia|].
      assert (Hskip : skipn (Z.to_nat (sv_length front)) raw_str = c :: back)
        by (rewrite Hraw; apply skipn_sv_length).
      rewrite Hskip in H.
      destruct (Z.to_nat (Z.min (i - sv_length front + 1)
                                (sv_length raw_str - sv_length front)))
        as [|n] eqn:En; [lia|].
      cbn [firstn app] in H.
      destruct (dedent_loop_appends _ _ _ _ H) as [more Hm].
      cbn [out_str app] in Hm.
      eexists; exact Hm.
    + apply (IH (i + 1) t); [lia | lia | exact H].
Qed.

End DedentLoop.

(* ------------------------------------------------------------------ *)
(** ** Idempotence *)

(** What [dedent_string] returns is its argument, or a text on which the
    reference indentation is 0. *)
Lemma dedent_view_result (raw_str t : string_view) :
  sv_length raw_str <= INT_MAX ->
  dedent_view raw_str = Some t ->
  (snd (non_empty_line_idx raw_str) = 0 /\ t = raw_str) \/ occupied t.
Proof.
  intros Hlen H.
  destruct (non_empty_line_idx_spec raw_str Hlen)
    as (pre & ws & rest & Heq & Hidx & Hb & Hocc).
  unfold dedent_view in H. rewrite Hidx in H.
  destruct (Z.eqb_spec (sv_length ws) 0) as [E|E].
  - left. rewrite Hidx. inversion H; auto.
  - right.
    pose proof (sv_length_nonneg pre) as Hp.
    pose proof (sv_length_nonneg ws) as Hw.
    pose proof (sv_length_nonneg rest) as Hr.
    assert (Hsum : sv_length pre + sv_length ws + sv_length rest
                   = sv_length raw_str).
    { rewrite Heq, !sv_length_app; lia. }
    unfold INT_MAX in Hlen.
    rewrite to_unsigned_small in H by lia.
    assert (Hskip : skipn (Z.to_nat (sv_length pre)) raw_str = (ws ++ rest)%list)
      by (rewrite Heq; apply skipn_sv_length).
    rewrite Hskip in H.
    unfold dedent_init in H.
    rewrite dedent_loop_indentation in H by (auto; unfold INT_MAX; lia).
    rewrite Z.add_0_l in H.
    destruct Hocc as [-> | (c & r & -> & Hbc & Hnl)].
    + inversion H; subst. now left.
    + cbn [dedent_loop] in H. unfold dedent_step in H.
      cbn [process_spaces out_str line_start cur_space_count] in H.
      rewrite not_blank_test, Hbc in H. cbn [negb] in H.
      rewrite to_int_small in H by lia.
      change (sv_length (c :: r)) with (sv_length ([c] ++ r)%list) in Hsum.
      rewrite sv_length_app in Hsum. change (sv_length [c]) with 1 in Hsum.
      pose proof (sv_length_nonneg r) as Hr'.
      rewrite to_unsigned_small in H by lia.
      rewrite <- sv_length_app in H.
      assert (Hraw : raw_str = ((pre ++ ws) ++ c :: r)%list)
        by now rewrite Heq, <- List.app_assoc.
      assert (Hlen' : sv_length raw_str <= INT_MAX) by (unfold INT_MAX; lia).
      assert (Hk : 0 <= sv_length ws <= INT_MAX) by (unfold INT_MAX; lia).
      assert (Hi : sv_length (pre ++ ws)%list < sv_length (pre ++ ws)%list + 1)
        by lia.
      assert (Hir : sv_length (pre ++ ws)%list + 1 + sv_length r
                    <= sv_length raw_str)
        by (rewrite sv_length_app; lia).
      destruct (dedent_loop_first_piece raw_str (sv_length ws)
                  (pre ++ ws)%list r c Hraw Hlen' Hk r _ t Hi Hir H)
        as [-> | [t' ->]].
      * now left.
      * right. exists c, t'. auto.
Qed.

Lemma dedent_view_idempotent (raw_str t : string_view) :
  sv_length raw_str <= INT_MAX ->
  dedent_view raw_str = Some t ->
  dedent_view t = Some t.
Proof.
  intros Hlen H.
  destruct (dedent_view_result raw_str t Hlen H) as [[_ ->] | Hocc].
  - unfold dedent_view in *.
    destruct (non_empty_line_idx raw_str) as [st k].
    destruct (k =? 0)%Z eqn:Ek; [reflexivity|].
    exact H.
  - unfold dedent_view.
    now rewrite (non_empty_line_idx_occupied t Hocc).
Qed.

Lemma length_list_ascii_of_string (s : string) :
  List.length (list_ascii_of_string s) = String.length s.
Proof.
  induction s as [|c s IH]; simpl; [reflexivity | now rewrite IH].
Qed.

(** X13: on what it returns, [dedent_string] is the identity.  For a text
    whose length an [int] holds, if [dedent_string] returns [t] then
    [dedent_string] on [t] returns [t]. *)
Theorem dedent_string_fixes_results (s t : string) :
  Z.of_nat (String.length s) <= INT_MAX ->
  dedent_string s = Some t ->
  dedent_string t = Some t.
Proof.
  intros Hlen H.
  unfold dedent_string in H.
  destruct (dedent_view (list_ascii_of_string s)) as [v|] eqn:E; [|discriminate].
  cbn [option_map] in H. inversion H; subst t.
  unfold dedent_string.
  rewrite list_ascii_of_string_of_list_ascii.
  rewrite (dedent_view_idempotent (list_ascii_of_string s) v); [reflexivity| |exact E].
  unfold sv_length. now rewrite length_list_ascii_of_string.
Qed.

(** A text that [dedent_string] changes, and its result. *)
Lemma dedent_string_fixes_results_witness :
  dedent_string ("a" ++ NL ++ "  b" ++ NL) = Some ("a" ++ NL ++ "  b" ++ NL).
Proof.
  apply (dedent_string_fixes_results example_text ("a" ++ NL ++ "  b" ++ NL)).
  - vm_compute; discriminate.
  - vm_compute; reflexivity.
Defined.

(* ------------------------------------------------------------------ *)
(** ** A batch on a concrete platform *)

(** A batch of a vector and a matrix under LLP64: six messages. *)
Lemma data_args_framing_witness :
  Forall (fun a => storage_fits sizeof_LLP64 (snd a)) example_batch
  /\ socket_ (data_args sizeof_LLP64 example_batch example_session)
     = [ Copied "data|x|f|3|(3,)"; ZeroCopy 4096 12;
         Copied "data|m|d|4|(2,2)"; ZeroCopy 8192 32;
         Copied ("plot(x)" ++ NL); Copied "finalize" ]
  /\ plot_cmds_ (data_args sizeof_LLP64 example_batch example_session) = "".
Proof.
  assert (H : Forall (fun a => storage_fits sizeof_LLP64 (snd a)) example_batch)
    by (repeat constructor).
  destruct (data_args_framing sizeof_LLP64 example_batch example_session H)
    as (Hs & _ & Hc).
  split; [exact H|].
  split; [rewrite Hs; reflexivity | exact Hc].
Defined.

(** A vector of [bool]: tag ["0"] in the header, an empty payload. *)
Lemma unregistered_type_sentinel_witness :
  is_registered (value_type example_bool_vector) = false
  /\ socket_ (send_container sizeof_LP64 "flags" example_bool_vector
                (mk_cppyplot [] ""))
     = [ Copied "data|flags|0|7|(7,)"; ZeroCopy 4096 0 ].
Proof.
  assert (H : is_registered (value_type example_bool_vector) = false)
    by reflexivity.
  destruct (unregistered_type_sentinel sizeof_LP64 "flags" example_bool_vector
              (mk_cppyplot [] "") H) as (_ & _ & Hs).
  split; [exact H | rewrite Hs; reflexivity].
Defined.

(* ------------------------------------------------------------------ *)
(** ** Well-indented texts *)

Lemma blank_not_newline (c : ascii) :
  is_blank c = true -> Ascii.eqb c newline = false.
Proof.
  unfold is_blank; intros H.
  destruct (Ascii.eqb_spec c newline) as [->|]; [discriminate | reflexivity].
Qed.

Lemma sv_length_cons (c : ascii) (s : string_view) :
  sv_length (c :: s) = 1 + sv_length s.
Proof. unfold sv_length; simpl List.length; lia. Qed.

(** [non_empty_line_idx] over a run of indentation. *)
Lemma non_empty_line_scan_indentation (ws : string_view) :
  forall rest i new_line_pos num_spaces,
    all_blank ws ->
    0 <= i -> i + sv_length ws <= INT_MAX ->
    0 <= num_spaces -> num_spaces + sv_length ws <= INT_MAX ->
    non_empty_line_scan (ws ++ rest)%list i new_line_pos num_spaces
    = non_empty_line_scan rest (i + sv_length ws) new_line_pos
                          (num_spaces + sv_length ws).
Proof.
  unfold INT_MAX.
  induction ws as [|c ws IH]; intros rest i nlp ns Hb Hi Hi' Hn Hn'.
  - cbn [app]. change (sv_length []) with 0. now rewrite !Z.add_0_r.
  - inversion Hb as [|? ? Hc Hws]; subst.
    rewrite sv_length_cons in *.
    pose proof (sv_length_nonneg ws).
    cbn [app non_empty_line_scan].
    rewrite (blank_not_newline c Hc), not_blank_test, Hc.
    cbn [negb].
    rewrite !to_unsigned_small by lia.
    rewrite IH by (auto; lia).
    now rewrite !Z.add_assoc.
Qed.

Lemma sv_length_blank_line (ws : string_view) :
  sv_length (blank_line ws) = sv_length ws + 1.
Proof. unfold blank_line; now rewrite sv_length_app. Qed.

(** [non_empty_line_idx] over the leading blank lines. *)
Lemma non_empty_line_scan_blank_lines (blanks : list string_view) :
  forall rest i,
    Forall all_blank blanks ->
    0 <= i -> i + sv_length (List.concat (map blank_line blanks)) <= INT_MAX ->
    non_empty_line_scan (List.concat (map blank_line blanks) ++ rest)%list i (i - 1) 0
    = non_empty_line_scan rest (i + sv_length (List.concat (map blank_line blanks)))
                          (i + sv_length (List.concat (map blank_line blanks)) - 1) 0.
Proof.
  unfold INT_MAX.
  induction blanks as [|ws blanks IH]; intros rest i Hb Hi Hi'.
  - cbn [map List.concat app]. change (sv_length []) with 0. now rewrite !Z.add_0_r.
  - inversion Hb as [|? ? Hws Hbl]; subst.
    cbn [map List.concat] in *.
    rewrite !sv_length_app, !sv_length_blank_line in *.
    change (blank_line ws) with (ws ++ [newline])%list.
    pose proof (sv_length_nonneg ws).
    pose proof (sv_length_nonneg (List.concat (map blank_line blanks))).
    rewrite <- !List.app_assoc.
    rewrite non_empty_line_scan_indentation by (auto; unfold INT_MAX; lia).
    cbn [app non_empty_line_scan].
    rewrite Ascii.eqb_refl.
    rewrite to_unsigned_small, to_int_small by lia.
    replace (i + sv_length ws) with (i + sv_length ws + 1 - 1) at 2 by lia.
    rewrite IH by (auto; lia).
    f_equal; lia.
Qed.

Lemma adjust_line_start_indented (ls cur k : Z) :
  0 <= k <= cur -> cur <= ls -> ls <= INT_MAX ->
  adjust_line_start ls cur k = ls - cur + k.
Proof.
  unfold INT_MAX, adjust_line_start; intros Hk Hc Hl.
  rewrite (to_unsigned_small cur) by lia.
  rewrite (to_unsigned_small (cur - k)) by lia.
  rewrite (to_unsigned_small ls) by lia.
  rewrite to_unsigned_small by lia.
  rewrite to_int_small by lia.
  lia.
Qed.

Lemma piece_count_inside (i ls : Z) :
  0 <= ls <= i + 1 -> i < INT_MAX ->
  piece_count i ls = i - ls + 1.
Proof.
  unfold INT_MAX, piece_count; intros Hl Hi.
  rewrite (to_unsigned_small ls) by lia.
  unfold to_unsigned.
  rewrite Zplus_mod_idemp_l.
  apply Z.mod_small; lia.
Qed.

(** The piece [substr] cuts out for a line indented by at least [k]. *)
Lemma firstn_skipn_line (front ind bdy rest : string_view) (k : nat) :
  (k <= List.length ind)%nat ->
  firstn (List.length ind - k + List.length bdy + 1)
         (skipn (List.length front + k)
                (front ++ ind ++ bdy ++ [newline] ++ rest)%list)
  = (skipn k ind ++ bdy ++ [newline])%list.
Proof.
  intros Hk.
  rewrite skipn_app, skipn_all2 by lia.
  replace (List.length front + k - List.length front)%nat with k by lia.
  rewrite skipn_app.
  replace (k - List.length ind)%nat with 0%nat by lia.
  cbn [app skipn].
  change (skipn k ind ++ bdy ++ newline :: rest)%list
    with (skipn k ind ++ bdy ++ [newline] ++ rest)%list.
  rewrite 2!List.app_assoc, <- (List.app_assoc (skipn k ind)).
  set (piece := (skipn k ind ++ bdy ++ [newline])%list).
  assert (Hp : (List.length ind - k + List.length bdy + 1)%nat
               = (List.length piece + 0)%nat).
  { unfold piece. rewrite !length_app, length_skipn. simpl. lia. }
  rewrite Hp, firstn_app_2.
  cbn [firstn]. now rewrite List.app_nil_r.
Qed.

Section DedentLines.

Variable raw_str : string_view.
Variable num_spaces : Z.
Hypothesis raw_fits : sv_length raw_str <= INT_MAX.
Hypothesis num_spaces_nonneg : 0 <= num_spaces.

(** Without a newline ahead nothing more is appended. *)
Lemma dedent_loop_no_newline (tail : string_view) :
  no_newline tail ->
  forall i st, dedent_loop raw_str num_spaces tail i st = Some (out_str st).
Proof.
  induction tail as [|c tail IH]; intros Hn i st; [reflexivity|].
  inversion Hn as [|? ? Hc Ht]; subst.
  cbn [dedent_loop]. unfold dedent_step.
  destruct (process_spaces st).
  - destruct (negb (Ascii.eqb c space) && negb (Ascii.eqb c tab));
      now rewrite IH.
  - rewrite Hc. now rewrite IH.
Qed.

(** Inside a line, after its indentation, characters other than the newline
    are passed over. *)
Lemma dedent_loop_body (r : string_view) :
  no_newline r ->
  forall rest i out ls cur,
    0 <= i -> i + sv_length r <= INT_MAX ->
    dedent_loop raw_str num_spaces (r ++ rest)%list i
                (mk_dedent_state out ls false cur)
    = dedent_loop raw_str num_spaces rest (i + sv_length r)
                  (mk_dedent_state out ls false cur).
Proof.
  unfold INT_MAX.
  induction r as [|c r IH]; intros Hn rest i out ls cur Hi Hi'.
  - cbn [app]. change (sv_length []) with 0. now rewrite Z.add_0_r.
  - inversion Hn as [|? ? Hc Hr]; subst.
    rewrite sv_length_cons in *.
    pose proof (sv_length_nonneg r).
    cbn [app dedent_loop]. unfold dedent_step.
    cbn [process_spaces]. rewrite Hc.
    rewrite to_unsigned_small by lia.
    rewrite IH by (auto; lia).
    now rewrite !Z.add_assoc.
Qed.

(** One well-indented line, read from its first character: the line
    without [num_spaces] characters of its indentation is appended. *)
Lemma dedent_loop_line (front rest out : string_view) (l : text_line) :
  raw_str = (front ++ render_line l ++ rest)%list ->
  well_indented num_spaces l ->
  dedent_loop raw_str num_spaces (render_line l ++ rest)%list (sv_length front)
              (mk_dedent_state out (-1) true 0)
  = dedent_loop raw_str num_spaces rest (sv_length front + sv_length (render_line l))
                (mk_dedent_state (out ++ dedented_line num_spaces l)%list (-1) true 0).
Proof.
  intros Hraw (Hb & Hk & Hn & c & r & Hbody & Hc).
  pose proof raw_fits as Hfit. unfold INT_MAX in Hfit.
  destruct l as [ind bdy]; cbn [indent body] in *. subst bdy.
  apply Forall_cons_iff in Hn. destruct Hn as [Hcn Hrn].
  unfold render_line, dedented_line in *; cbn [indent body] in *.
  assert (Hlen : sv_length front + sv_length ind + 1 + sv_length r + 1
                 + sv_length rest = sv_length raw_str).
  { rewrite Hraw. rewrite !sv_length_app, sv_length_cons.
    change (sv_length [newline]) with 1. lia. }
  pose proof (sv_length_nonneg front) as Hf.
  pose proof (sv_length_nonneg ind) as Hi.
  pose proof (sv_length_nonneg r) as Hr.
  pose proof (sv_length_nonneg rest) as Hre.
  rewrite <- !List.app_assoc.
  rewrite dedent_loop_indentation by (auto; unfold INT_MAX; lia).
  rewrite Z.add_0_l.
  (* the first character of the body *)
  cbn [app dedent_loop]. unfold dedent_step at 1.
  cbn [process_spaces out_str line_start cur_space_count].
  rewrite not_blank_test, Hc. cbn [negb].
  rewrite to_int_small, to_unsigned_small by lia.
  (* the rest of the body *)
  rewrite dedent_loop_body by (auto; unfold INT_MAX; lia).
  (* the newline *)
  cbn [app dedent_loop]. unfold dedent_step at 1.
  cbn [process_spaces out_str line_start cur_space_count].
  rewrite Ascii.eqb_refl.
  destruct (Z.eqb_spec (sv_length front + sv_length ind) (-1)) as [E|_]; [lia|].
  rewrite adjust_line_start_indented by (unfold INT_MAX; lia).
  rewrite piece_count_inside by (unfold INT_MAX; lia).
  rewrite !to_size_t_small by lia.
  unfold sv_substr.
  destruct (Z.ltb_spec (sv_length raw_str)
              (sv_length front + sv_length ind - sv_length ind + num_spaces))
    as [E|_]; [lia|].
  replace (Z.to_nat (sv_length front + sv_length ind - sv_length ind + num_spaces))
    with (List.length front + Z.to_nat num_spaces)%nat
    by (unfold sv_length; lia).
  replace (Z.to_nat _)
    with (List.length ind - Z.to_nat num_spaces + List.length (c :: r) + 1)%nat
    by (unfold sv_length in *; simpl List.length; lia).
  assert (Hpiece :
    firstn (List.length ind - Z.to_nat num_spaces + List.length (c :: r) + 1)
           (skipn (List.length front + Z.to_nat num_spaces) raw_str)
    = (skipn (Z.to_nat num_spaces) ind ++ (c :: r) ++ [newline])%list).
  { rewrite Hraw, <- !List.app_assoc.
    apply (firstn_skipn_line front ind (c :: r) rest (Z.to_nat num_spaces)).
    unfold sv_length in *; lia. }
  rewrite Hpiece.
  rewrite to_unsigned_small by lia.
  assert (Hl : sv_length (ind ++ c :: r ++ [newline])%list
               = sv_length ind + 1 + sv_length r + 1).
  { rewrite sv_length_app, sv_length_cons, sv_length_app.
    change (sv_length [newline]) with 1. lia. }
  rewrite Hl, !Z.add_assoc.
  reflexivity.
Qed.

(** A run of well-indented lines. *)
Lemma dedent_loop_lines (lines : list text_line) :
  forall front rest out,
    raw_str = (front ++ List.concat (map render_line lines) ++ rest)%list ->
    Forall (well_indented num_spaces) lines ->
    dedent_loop raw_str num_spaces
                (List.concat (map render_line lines) ++ rest)%list
                (sv_length front) (mk_dedent_state out (-1) true 0)
    = dedent_loop raw_str num_spaces rest
                  (sv_length front + sv_length (List.concat (map render_line lines)))
                  (mk_dedent_state
                     (out ++ List.concat (map (dedented_line num_spaces) lines))%list
                     (-1) true 0).
Proof.
  induction lines as [|l lines IH]; intros front rest out Hraw Hw.
  - cbn [map List.concat app]. change (sv_length []) with 0.
    now rewrite Z.add_0_r, List.app_nil_r.
  - apply Forall_cons_iff in Hw. destruct Hw as [Hl Hls].
    cbn [map List.concat] in *.
    rewrite <- List.app_assoc in *.
    rewrite (dedent_loop_line front) by assumption.
    rewrite <- sv_length_app.
    rewrite IH; [|now rewrite <- List.app_assoc|assumption].
    rewrite !sv_length_app, <- !List.app_assoc.
    now rewrite Z.add_assoc.
Qed.

End DedentLines.

(** X1: on a text made of blank lines, well-indented lines, the first of them
    indented by exactly [k > 0], and a rest without newline,
    [dedent_string] returns the lines without [k] characters of their
    indentation: the blank lines at the start and the unterminated rest are
    left out, indentation beyond [k] is kept. *)
Theorem dedent_view_well_indented
    (blanks : list string_view) (first : text_line) (lines : list text_line)
    (tail : string_view) :
  let k := sv_length (indent first) in
  let raw_str :=
    (List.concat (map blank_line blanks)
     ++ List.concat (map render_line (first :: lines)) ++ tail)%list in
  Forall all_blank blanks ->
  0 < k ->
  Forall (well_indented k) (first :: lines) ->
  no_newline tail ->
  sv_length raw_str <= INT_MAX ->
  dedent_view raw_str
  = Some (List.concat (map (dedented_line k) (first :: lines))).
Proof.
  intros k raw_str Hbl Hk Hw Hn Hfit.
  set (pre := List.concat (map blank_line blanks)) in *.
  assert (Hidx : non_empty_line_idx raw_str = (sv_length pre, k)).
  { apply Forall_cons_iff in Hw.
    destruct Hw as [(Hb & _ & Hnb & c & r & Hbody & Hc) _].
    unfold non_empty_line_idx, raw_str.
    assert (Hlen : sv_length pre + k + 1 <= sv_length raw_str).
    { unfold raw_str. cbn [map List.concat]. unfold render_line at 1.
      rewrite Hbody. rewrite !sv_length_app, sv_length_cons.
      pose proof (sv_length_nonneg r).
      pose proof (sv_length_nonneg (List.concat (map render_line lines))).
      pose proof (sv_length_nonneg tail).
      change (sv_length [newline]) with 1. unfold k. lia. }
    pose proof (sv_length_nonneg pre).
    unfold INT_MAX in Hfit.
    change (-1) with (0 - 1).
    unfold pre.
    rewrite non_empty_line_scan_blank_lines
      by (auto; fold pre; unfold INT_MAX; lia).
    fold pre. cbn [map List.concat]. unfold render_line at 1.
    rewrite <- !List.app_assoc.
    rewrite non_empty_line_scan_indentation
      by (auto; fold k; unfold INT_MAX; lia).
    rewrite Hbody. cbn [app non_empty_line_scan].
    rewrite Hbody in Hnb. apply Forall_cons_iff in Hnb. destruct Hnb as [Hcn _].
    rewrite Hcn, not_blank_test, Hc. cbn [negb].
    rewrite to_int_small by lia.
    f_equal; lia. }
  unfold dedent_view. rewrite Hidx.
  destruct (Z.eqb_spec k 0) as [E|_]; [lia|].
  pose proof (sv_length_nonneg pre).
  unfold INT_MAX in Hfit.
  assert (Hpre : sv_length pre <= sv_length raw_str).
  { unfold raw_str. rewrite sv_length_app.
    pose proof (sv_length_nonneg
                  (List.concat (map render_line (first :: lines)) ++ tail)%list).
    lia. }
  rewrite to_unsigned_small by lia.
  unfold raw_str at 2. rewrite skipn_sv_length.
  unfold dedent_init.
  rewrite (dedent_loop_lines raw_str k) by (auto; unfold INT_MAX; lia).
  now rewrite dedent_loop_no_newline.
Qed.

(** The theorem at work: two blank lines, a first line indented by 2, a
    line indented by 4, and an unterminated rest. *)
Lemma dedent_view_well_indented_witness :
  dedent_view
    (list_ascii_of_string
       (NL ++ "  " ++ NL ++ "  a" ++ NL ++ "    b" ++ NL ++ "cc"))
  = Some (list_ascii_of_string ("a" ++ NL ++ "  b" ++ NL)).
Proof.
  apply (dedent_view_well_indented
           [ []; list_ascii_of_string "  " ]
           (mk_text_line (list_ascii_of_string "  ") (list_ascii_of_string "a"))
           [ mk_text_line (list_ascii_of_string "    ") (list_ascii_of_string "b") ]
           (list_ascii_of_string "cc")).
  - repeat constructor.
  - reflexivity.
  - repeat constructor; try (vm_compute; discriminate);
      eexists; eexists; split; reflexivity.
  - repeat constructor.
  - vm_compute; discriminate.
Defined.

(* ------------------------------------------------------------------ *)
(** ** The result of [non_empty_line_idx] *)

Lemma non_empty_line_scan_layout (rest : string_view) :
  forall (pre ws : string_view) (i new_line_pos num_spaces : Z),
    sv_length (pre ++ ws ++ rest)%list <= INT_MAX ->
    leading_blank_lines pre ->
    all_blank ws ->
    i = sv_length pre + sv_length ws ->
    new_line_pos = sv_length pre - 1 ->
    num_spaces = sv_length ws ->
    exists pre' ws' rest',
      (pre ++ ws ++ rest = pre' ++ ws' ++ rest')%list
      /\ non_empty_line_scan rest i new_line_pos num_spaces
         = (sv_length pre', sv_length ws')
      /\ leading_blank_lines pre'
      /\ all_blank ws'
      /\ occupied rest'.
Proof.
  induction rest as [|c rest IH];
    intros pre ws i nlp ns Hlen Hpre Hws Hi Hnlp Hns.
  - exists pre, ws, []; cbn [non_empty_line_scan].
    pose proof (sv_length_nonneg pre). pose proof (sv_length_nonneg ws).
    rewrite !sv_length_app in Hlen. change (sv_length []) with 0 in Hlen.
    unfold INT_MAX in Hlen.
    subst nlp ns. rewrite to_int_small by lia.
    repeat split; try assumption; [f_equal; lia | apply Hpre | apply Hpre | now left].
  - pose proof (sv_length_nonneg pre) as Hp.
    pose proof (sv_length_nonneg ws) as Hw.
    pose proof (sv_length_nonneg rest) as Hr.
    assert (Hlen' : sv_length pre + sv_length ws + 1 + sv_length rest <= 2 ^ 31 - 1).
    { rewrite !sv_length_app, sv_length_cons in Hlen.
      unfold INT_MAX in Hlen. lia. }
    cbn [non_empty_line_scan].
    destruct (Ascii.eqb_spec c newline) as [Enl|Enl].
    + destruct (IH (pre ++ ws ++ [c])%list [] (to_unsigned (i + 1)) (to_int i) 0)
        as (pre' & ws' & rest' & Heq & Hscan & Hpre' & Hb & Hocc).
      * rewrite <- !List.app_assoc. exact Hlen.
      * split.
        -- apply Forall_app; split; [apply Hpre|].
           apply Forall_app; split.
           ++ eapply Forall_impl; [|exact Hws]. intros a Ha; now left.
           ++ constructor; [now right | constructor].
        -- right. exists (pre ++ ws)%list. subst c.
           now rewrite <- List.app_assoc.
      * constructor.
      * subst i. rewrite to_unsigned_small by lia.
        rewrite !sv_length_app. change (sv_length [c]) with 1.
        change (sv_length []) with 0. lia.
      * subst i. rewrite to_int_small by lia.
        rewrite !sv_length_app. change (sv_length [c]) with 1. lia.
      * reflexivity.
      * exists pre', ws', rest'.
        repeat split; try assumption; try apply Hpre'.
        rewrite <- Heq, <- !List.app_assoc; reflexivity.
    + rewrite not_blank_test.
      destruct (is_blank c) eqn:Eb; cbn [negb].
      * destruct (IH pre (ws ++ [c])%list (to_unsigned (i + 1)) nlp
                     (to_unsigned (ns + 1)))
          as (pre' & ws' & rest' & Heq & Hscan & Hpre' & Hb & Hocc).
        -- rewrite <- !List.app_assoc. exact Hlen.
        -- assumption.
        -- apply Forall_app; split; [assumption|]. now constructor.
        -- subst i. rewrite to_unsigned_small by lia.
           rewrite sv_length_app. change (sv_length [c]) with 1. lia.
        -- assumption.
        -- subst ns. rewrite to_unsigned_small by lia.
           rewrite sv_length_app. change (sv_length [c]) with 1. lia.
        -- exists pre', ws', rest'.
           repeat split; try assumption; try apply Hpre'.
           rewrite <- Heq, <- !List.app_assoc; reflexivity.
      * exists pre, ws, (c :: rest).
        subst nlp ns. rewrite to_int_small by lia.
        repeat split; try assumption; try apply Hpre; [f_equal; lia|].
        right. exists c, rest. repeat split; auto.
        now apply Ascii.eqb_neq.
Qed.

(** X3: [non_empty_line_idx] on any text an [int] can index: the text splits
    into leading blank lines, a run of indentation and a rest that is empty
    or starts with an occupied character; the function returns the length of
    the first part and the length of the run.  Both are indices inside the
    text. *)
Theorem non_empty_line_idx_layout (raw_str : string_view) :
  sv_length raw_str <= INT_MAX ->
  exists pre ws rest,
    raw_str = (pre ++ ws ++ rest)%list
    /\ non_empty_line_idx raw_str = (sv_length pre, sv_length ws)
    /\ leading_blank_lines pre
    /\ all_blank ws
    /\ occupied rest
    /\ 0 <= sv_length pre
    /\ sv_length pre + sv_length ws <= sv_length raw_str.
Proof.
  intros Hlen.
  destruct (non_empty_line_scan_layout raw_str [] [] 0 (-1) 0)
    as (pre & ws & rest & Heq & Hscan & Hpre & Hb & Hocc); auto.
  - split; [constructor | now left].
  - constructor.
  - exists pre, ws, rest.
    cbn [app] in Heq.
    repeat split; try assumption; try apply Hpre.
    + apply sv_length_nonneg.
    + rewrite Heq, !sv_length_app. pose proof (sv_length_nonneg rest). lia.
Qed.

Lemma non_empty_line_scan_occupied (rest : string_view) (i nlp ns : Z) :
  occupied rest ->
  non_empty_line_scan rest i nlp ns = (to_int (nlp + 1), ns).
Proof.
  intros [-> | (c & r & -> & Hb & Hnl)]; [reflexivity|].
  cbn [non_empty_line_scan].
  now rewrite Hnl, not_blank_test, Hb.
Qed.

(** [non_empty_line_idx] on a text given by its parts. *)
Lemma non_empty_line_idx_lines (blanks : list string_view)
    (ws rest : string_view) :
  Forall all_blank blanks ->
  all_blank ws ->
  occupied rest ->
  sv_length (List.concat (map blank_line blanks) ++ ws ++ rest)%list <= INT_MAX ->
  non_empty_line_idx (List.concat (map blank_line blanks) ++ ws ++ rest)%list
  = (sv_length (List.concat (map blank_line blanks)), sv_length ws).
Proof.
  intros Hbl Hws Hocc Hfit.
  rewrite !sv_length_app in Hfit. unfold INT_MAX in Hfit.
  pose proof (sv_length_nonneg (List.concat (map blank_line blanks))).
  pose proof (sv_length_nonneg ws).
  pose proof (sv_length_nonneg rest).
  unfold non_empty_line_idx.
  change (-1) with (0 - 1).
  rewrite non_empty_line_scan_blank_lines by (auto; unfold INT_MAX; lia).
  rewrite non_empty_line_scan_indentation by (auto; unfold INT_MAX; lia).
  rewrite non_empty_line_scan_occupied by assumption.
  rewrite to_int_small by lia.
  f_equal; lia.
Qed.

(* ------------------------------------------------------------------ *)
(** ** Texts [dedent_string] leaves alone, and texts it empties *)

(** X4: when the first occupied line of a text is not indented, or the text
    has no occupied line and ends with a newline or is empty,
    [dedent_string] returns the text as it is, leading blank lines
    included. *)
Theorem dedent_view_unindented (blanks : list string_view) (rest : string_view) :
  Forall all_blank blanks ->
  occupied rest ->
  sv_length (List.concat (map blank_line blanks) ++ rest)%list <= INT_MAX ->
  dedent_view (List.concat (map blank_line blanks) ++ rest)%list
  = Some (List.concat (map blank_line blanks) ++ rest)%list.
Proof.
  intros Hbl Hocc Hfit.
  pose proof (non_empty_line_idx_lines blanks [] rest Hbl (Forall_nil _) Hocc Hfit)
    as Hidx.
  cbn [app] in Hidx.
  unfold dedent_view. rewrite Hidx.
  reflexivity.
Qed.

(** X5: when a text has no occupied line and its last line is a non-empty run
    of indentation, [dedent_string] returns the empty text. *)
Theorem dedent_view_only_indentation (blanks : list string_view) (ws : string_view) :
  Forall all_blank blanks ->
  all_blank ws ->
  ws <> [] ->
  sv_length (List.concat (map blank_line blanks) ++ ws)%list <= INT_MAX ->
  dedent_view (List.concat (map blank_line blanks) ++ ws)%list = Some [].
Proof.
  intros Hbl Hws Hne Hfit.
  assert (Hfit' : sv_length (List.concat (map blank_line blanks) ++ ws ++ [])%list
                  <= INT_MAX) by now rewrite List.app_nil_r.
  pose proof (non_empty_line_idx_lines blanks ws [] Hbl Hws (or_introl eq_refl) Hfit')
    as Hidx.
  rewrite List.app_nil_r in Hidx.
  unfold dedent_view. rewrite Hidx.
  rewrite sv_length_app in Hfit. unfold INT_MAX in Hfit.
  pose proof (sv_length_nonneg (List.concat (map blank_line blanks))).
  pose proof (sv_length_nonneg ws).
  destruct (Z.eqb_spec (sv_length ws) 0) as [E|_].
  - destruct ws; [now elim Hne | rewrite sv_length_cons in E].
    pose proof (sv_length_nonneg ws). lia.
  - rewrite to_unsigned_small by lia.
    rewrite skipn_sv_length.
    unfold dedent_init.
    pose proof (dedent_loop_indentation
                  (List.concat (map blank_line blanks) ++ ws)%list (sv_length ws)
                  ws [] (sv_length (List.concat (map blank_line blanks)))
                  [] (-1) 0 Hws) as Hloop.
    rewrite List.app_nil_r in Hloop.
    rewrite Hloop by (unfold INT_MAX; lia).
    reflexivity.
Qed.

(** X6: the first occupied line of what [dedent_string] returns is not
    indented: on the result, [non_empty_line_idx] finds 0 spaces. *)
Theorem dedent_string_result_unindented (s t : string) :
  Z.of_nat (String.length s) <= INT_MAX ->
  dedent_string s = Some t ->
  snd (non_empty_line_idx (list_ascii_of_string t)) = 0.
Proof.
  intros Hlen H.
  unfold dedent_string in H.
  destruct (dedent_view (list_ascii_of_string s)) as [v|] eqn:E; [|discriminate].
  cbn [option_map] in H. inversion H; subst t.
  rewrite list_ascii_of_string_of_list_ascii.
  assert (Hfit : sv_length (list_ascii_of_string s) <= INT_MAX)
    by (unfold sv_length; now rewrite length_list_ascii_of_string).
  destruct (dedent_view_result _ _ Hfit E) as [[Hk ->] | Hocc].
  - exact Hk.
  - now rewrite (non_empty_line_idx_occupied v Hocc).
Qed.

(* ------------------------------------------------------------------ *)
(** ** Where the output comes from *)

Lemma incl_firstn_skipn (n m : nat) (l : string_view) :
  incl (firstn n (skipn m l)) l.
Proof.
  intros x Hx.
  rewrite <- (firstn_skipn m l). apply in_or_app; right.
  rewrite <- (firstn_skipn n (skipn m l)). apply in_or_app; now left.
Qed.

Lemma dedent_loop_incl (raw_str : string_view) (num_spaces : Z)
    (rest : string_view) : forall i st t,
  incl (out_str st) raw_str ->
  dedent_loop raw_str num_spaces rest i st = Some t ->
  incl t raw_str.
Proof.
  induction rest as [|c rest IH]; intros i st t Hout H; cbn [dedent_loop] in H.
  - inversion H; subst; assumption.
  - destruct (dedent_step raw_str num_spaces i c st) as [st'|] eqn:Es;
      [|discriminate].
    apply (IH (to_unsigned (i + 1)) st' t); [|exact H].
    unfold dedent_step in Es.
    destruct (process_spaces st).
    + destruct (negb (Ascii.eqb c space) && negb (Ascii.eqb c tab));
        inversion Es; subst; assumption.
    + destruct (Ascii.eqb c newline); [|inversion Es; subst; assumption].
      destruct (line_start st =? -1)%Z; [inversion Es; subst; assumption|].
      unfold sv_substr in Es.
      destruct (sv_length raw_str <? _)%Z; [discriminate|].
      inversion Es; subst; cbn [out_str].
      apply incl_app; [assumption | apply incl_firstn_skipn].
Qed.

(** X7: every character of what [dedent_string] returns is a character of its
    argument, for texts of any length and whatever their indentation. *)
Theorem dedent_string_chars (s t : string) :
  dedent_string s = Some t ->
  incl (list_ascii_of_string t) (list_ascii_of_string s).
Proof.
  unfold dedent_string, dedent_view; intros H.
  destruct (non_empty_line_idx (list_ascii_of_string s)) as [start k].
  destruct (k =? 0)%Z.
  - cbn [option_map] in H. inversion H; subst.
    rewrite list_ascii_of_string_of_list_ascii. apply incl_refl.
  - destruct (dedent_loop _ _ _ _ _) as [v|] eqn:E; [|discriminate].
    cbn [option_map] in H. inversion H; subst.
    rewrite list_ascii_of_string_of_list_ascii.
    eapply dedent_loop_incl; [|exact E].
    apply incl_nil_l.
Qed.

(* ------------------------------------------------------------------ *)
(** ** Lines as the loop delimits them *)

(** The adjusted start is [k] characters after the start of the line, also
    when the line has fewer than [k] characters of indentation. *)
Lemma adjust_line_start_line (ls cur k : Z) :
  0 <= k -> 0 <= cur <= ls -> ls - cur + k <= INT_MAX ->
  adjust_line_start ls cur k = ls - cur + k.
Proof.
  unfold INT_MAX, adjust_line_start, to_int, to_unsigned; intros Hk Hc Hl.
  Z.div_mod_to_equations. lia.
Qed.

(** The piece [substr] cuts out of a line of at least [k] characters. *)
Lemma firstn_skipn_piece (front line rest : string_view) (k : nat) :
  (k <= List.length line)%nat ->
  firstn (List.length line - k)
         (skipn (List.length front + k) (front ++ line ++ rest)%list)
  = skipn k line.
Proof.
  intros Hk.
  rewrite skipn_app, skipn_all2 by lia.
  replace (List.length front + k - List.length front)%nat with k by lia.
  rewrite skipn_app.
  replace (k - List.length line)%nat with 0%nat by lia.
  cbn [app skipn].
  assert (Hp : (List.length line - k)%nat = (List.length (skipn k line) + 0)%nat)
    by (rewrite length_skipn; lia).
  rewrite Hp, firstn_app_2.
  cbn [firstn]. now rewrite List.app_nil_r.
Qed.

Section DedentLoopLines.

Variable raw_str : string_view.
Variable num_spaces : Z.
Hypothesis raw_fits : sv_length raw_str <= INT_MAX.
Hypothesis num_spaces_nonneg : 0 <= num_spaces.

(** One line of at least [num_spaces] characters, read from its first
    character: the line without its first [num_spaces] characters is
    appended. *)
Lemma dedent_loop_loop_line (front rest out : string_view) (l : text_line) :
  raw_str = (front ++ render_line l ++ rest)%list ->
  loop_line num_spaces l ->
  dedent_loop raw_str num_spaces (render_line l ++ rest)%list (sv_length front)
              (mk_dedent_state out (-1) true 0)
  = dedent_loop raw_str num_spaces rest (sv_length front + sv_length (render_line l))
                (mk_dedent_state
                   (out ++ skipn (Z.to_nat num_spaces) (render_line l))%list
                   (-1) true 0).
Proof.
  intros Hraw (Hb & (c & r & Hbody & Hc & Hrn) & Hk).
  pose proof raw_fits as Hfit. unfold INT_MAX in Hfit.
  pose proof num_spaces_nonneg as Hk0.
  destruct l as [ind bdy]; cbn [indent body] in *. subst bdy.
  assert (Hline : sv_length (render_line (mk_text_line ind (c :: r)))
                  = sv_length ind + 1 + sv_length r + 1).
  { unfold render_line; cbn [indent body].
    rewrite sv_length_app, sv_length_app, sv_length_cons.
    change (sv_length [newline]) with 1. lia. }
  assert (Hlen : sv_length front + sv_length ind + 1 + sv_length r + 1
                 + sv_length rest = sv_length raw_str).
  { rewrite Hraw, sv_length_app, sv_length_app, Hline. lia. }
  rewrite Hline in Hk |- *.
  pose proof (sv_length_nonneg front) as Hf.
  pose proof (sv_length_nonneg ind) as Hi.
  pose proof (sv_length_nonneg r) as Hr.
  pose proof (sv_length_nonneg rest) as Hre.
  assert (Hpiece :
    firstn (List.length (render_line (mk_text_line ind (c :: r)))
            - Z.to_nat num_spaces)
           (skipn (List.length front + Z.to_nat num_spaces) raw_str)
    = skipn (Z.to_nat num_spaces) (render_line (mk_text_line ind (c :: r)))).
  { rewrite Hraw. apply firstn_skipn_piece.
    unfold sv_length in Hline. unfold sv_length in *. lia. }
  assert (Hll : List.length (render_line (mk_text_line ind (c :: r)))
                = (List.length ind + 1 + List.length r + 1)%nat).
  { unfold sv_length in Hline. lia. }
  unfold render_line at 1; cbn [indent body].
  rewrite <- !List.app_assoc.
  rewrite dedent_loop_indentation by (auto; unfold INT_MAX; lia).
  rewrite Z.add_0_l.
  (* the first character after the indentation *)
  cbn [app dedent_loop]. unfold dedent_step at 1.
  cbn [process_spaces out_str line_start cur_space_count].
  rewrite not_blank_test, Hc. cbn [negb].
  rewrite to_int_small, to_unsigned_small by lia.
  (* up to the newline *)
  rewrite dedent_loop_body by (auto; unfold INT_MAX; lia).
  (* the newline *)
  cbn [app dedent_loop]. unfold dedent_step at 1.
  cbn [process_spaces out_str line_start cur_space_count].
  rewrite Ascii.eqb_refl.
  destruct (Z.eqb_spec (sv_length front + sv_length ind) (-1)) as [E|_]; [lia|].
  rewrite adjust_line_start_line by (unfold INT_MAX; lia).
  rewrite piece_count_inside by (unfold INT_MAX; lia).
  rewrite !to_size_t_small by lia.
  unfold sv_substr.
  destruct (Z.ltb_spec (sv_length raw_str)
              (sv_length front + sv_length ind - sv_length ind + num_spaces))
    as [E|_]; [lia|].
  replace (Z.to_nat (sv_length front + sv_length ind - sv_length ind + num_spaces))
    with (List.length front + Z.to_nat num_spaces)%nat
    by (unfold sv_length; lia).
  replace (Z.to_nat _)
    with (List.length (render_line (mk_text_line ind (c :: r)))
          - Z.to_nat num_spaces)%nat
    by (rewrite Hll; unfold sv_length in *; lia).
  rewrite Hpiece.
  rewrite to_unsigned_small by lia.
  now rewrite !Z.add_assoc.
Qed.

Lemma dedent_loop_loop_lines (lines : list text_line) :
  forall front rest out,
    raw_str = (front ++ List.concat (map render_line lines) ++ rest)%list ->
    Forall (loop_line num_spaces) lines ->
    dedent_loop raw_str num_spaces
                (List.concat (map render_line lines) ++ rest)%list
                (sv_length front) (mk_dedent_state out (-1) true 0)
    = dedent_loop raw_str num_spaces rest
        (sv_length front + sv_length (List.concat (map render_line lines)))
        (mk_dedent_state
           (out ++ List.concat
                     (map (fun l => skipn (Z.to_nat num_spaces) (render_line l))
                          lines))%list
           (-1) true 0).
Proof.
  induction lines as [|l lines IH]; intros front rest out Hraw Hw.
  - cbn [map List.concat app]. change (sv_length []) with 0.
    now rewrite Z.add_0_r, List.app_nil_r.
  - apply Forall_cons_iff in Hw. destruct Hw as [Hl Hls].
    cbn [map List.concat] in *.
    rewrite <- List.app_assoc in *.
    rewrite (dedent_loop_loop_line front) by assumption.
    rewrite <- sv_length_app.
    rewrite IH; [|now rewrite <- List.app_assoc|assumption].
    rewrite !sv_length_app, <- !List.app_assoc.
    now rewrite Z.add_assoc.
Qed.

End DedentLoopLines.

Lemma well_indented_loop_line (k : Z) (l : text_line) :
  well_indented k l -> loop_line k l.
Proof.
  intros (Hb & Hk & Hn & c & r & Hbody & Hc).
  split; [assumption|]. split.
  - exists c, r. rewrite Hbody in Hn.
    apply Forall_cons_iff in Hn. destruct Hn as [_ Hr]. auto.
  - unfold render_line. rewrite sv_length_app.
    pose proof (sv_length_nonneg (body l ++ [newline])%list). lia.
Qed.

(** X2: on a text made of blank lines, a first occupied line indented by
    [k > 0], lines as the loop delimits them, each at least [k] characters
    long, and a rest without newline, [dedent_string] returns every line
    without its first [k] characters, whether they are indentation or not.
    A line here ends at the first newline after its first character that
    is not indentation, so a line that is blank in the text ends at the
    newline of the line after it. *)
Theorem dedent_view_loop_lines
    (blanks : list string_view) (first : text_line) (lines : list text_line)
    (tail : string_view) :
  let k := sv_length (indent first) in
  let raw_str :=
    (List.concat (map blank_line blanks)
     ++ List.concat (map render_line (first :: lines)) ++ tail)%list in
  Forall all_blank blanks ->
  0 < k ->
  well_indented k first ->
  Forall (loop_line k) lines ->
  no_newline tail ->
  sv_length raw_str <= INT_MAX ->
  dedent_view raw_str
  = Some (List.concat
            (map (fun l => skipn (Z.to_nat k) (render_line l)) (first :: lines))).
Proof.
  intros k raw_str Hbl Hk Hfirst Hlines Hn Hfit.
  set (pre := List.concat (map blank_line blanks)) in *.
  assert (Hidx : non_empty_line_idx raw_str = (sv_length pre, k)).
  { destruct Hfirst as (Hb & _ & Hnb & c & r & Hbody & Hc).
    rewrite Hbody in Hnb. apply Forall_cons_iff in Hnb. destruct Hnb as [Hcn _].
    unfold raw_str. cbn [map List.concat]. unfold render_line at 1.
    rewrite <- !List.app_assoc.
    apply non_empty_line_idx_lines; auto.
    - right. rewrite Hbody. exists c. eexists. split; [reflexivity|]. auto.
    - fold pre. unfold raw_str in Hfit. cbn [map List.concat] in Hfit.
      unfold render_line at 1 in Hfit. rewrite <- !List.app_assoc in Hfit.
      exact Hfit. }
  unfold dedent_view. rewrite Hidx.
  destruct (Z.eqb_spec k 0) as [E|_]; [lia|].
  pose proof (sv_length_nonneg pre).
  assert (Hpre : sv_length pre <= sv_length raw_str).
  { unfold raw_str. rewrite sv_length_app.
    pose proof (sv_length_nonneg
                  (List.concat (map render_line (first :: lines)) ++ tail)%list).
    lia. }
  unfold INT_MAX in Hfit.
  rewrite to_unsigned_small by lia.
  unfold raw_str at 2. rewrite skipn_sv_length.
  unfold dedent_init.
  rewrite (dedent_loop_loop_lines raw_str k);
    [ | unfold INT_MAX; lia | lia | reflexivity
      | constructor; [now apply well_indented_loop_line | assumption] ].
  now rewrite dedent_loop_no_newline.
Qed.

(* ------------------------------------------------------------------ *)
(** ** Headers determine their fields *)

Lemma no_pipe_app (a b : string) : no_pipe (a ++ b) = no_pipe a && no_pipe b.
Proof.
  induction a as [|c a IH]; cbn [append no_pipe]; [reflexivity|].
  now rewrite IH, andb_assoc.
Qed.

Lemma no_pipe_to_string (n : N) : no_pipe (to_string n) = true.
Proof.
  unfold to_string.
  induction (N.to_uint n); cbn [NilEmpty.string_of_uint no_pipe]; auto.
Qed.

Lemma no_pipe_typestr (sizeof : ctype -> N) (T : ctype) :
  no_pipe (typestr (ValType_of sizeof T)) = true.
Proof. destruct T; reflexivity. Qed.

Lemma no_pipe_shape_str (cont : container) : no_pipe (shape_str cont) = true.
Proof.
  destruct cont; unfold shape_str;
    rewrite !no_pipe_app, !no_pipe_to_string; reflexivity.
Qed.

(** The last delimiter of a text splits it in one way only. *)
Lemma append_pipe_inj (a : string) : forall b x y,
  no_pipe x = true -> no_pipe y = true ->
  a ++ String "|" x = b ++ String "|" y ->
  a = b /\ x = y.
Proof.
  induction a as [|c a IH]; intros b x y Hx Hy H.
  - destruct b as [|d b]; cbn [append] in H.
    + inversion H; auto.
    + inversion H as [[Hd Hxb]]. subst x.
      rewrite no_pipe_app in Hx. cbn [no_pipe] in Hx.
      rewrite Ascii.eqb_refl in Hx. cbn in Hx.
      rewrite andb_false_r in Hx. discriminate.
  - destruct b as [|d b]; cbn [append] in H.
    + inversion H as [[Hc Hay]]. subst y.
      rewrite no_pipe_app in Hy. cbn [no_pipe] in Hy.
      rewrite Ascii.eqb_refl in Hy. cbn in Hy.
      rewrite andb_false_r in Hy. discriminate.
    + inversion H as [[Hc Hab]].
      destruct (IH b x y Hx Hy Hab) as [-> ->]. auto.
Qed.

Lemma to_string_inj (n m : N) : to_string n = to_string m -> n = m.
Proof.
  intros H.
  pose proof (parse_N_to_string n) as Hn.
  rewrite H, parse_N_to_string in Hn.
  now inversion Hn.
Qed.

Lemma shape_str_same_shape (c1 c2 : container) :
  shape_str c1 = shape_str c2 -> same_shape c1 c2.
Proof.
  intros H.
  destruct c1 as [T1 d1 n1 | T1 d1 r1 k1], c2 as [T2 d2 n2 | T2 d2 r2 k2];
    pose proof (f_equal parse_shape H) as Hp;
    rewrite ?parse_shape_vector, ?parse_shape_matrix in Hp;
    inversion Hp; cbn [same_shape]; auto.
Qed.

Lemma typestr_registered_inj (sizeof : ctype -> N) (T1 T2 : ctype) :
  is_registered T1 = true ->
  typestr (ValType_of sizeof T1) = typestr (ValType_of sizeof T2) ->
  T1 = T2.
Proof.
  destruct T1, T2; cbn; intros Hr H; try discriminate; reflexivity.
Qed.

(** The header with its delimiters grouped from the right. *)
Lemma create_header_fields (sizeof : ctype -> N) (key : string) (cont : container) :
  create_header sizeof key cont
  = "data|" ++ ((key ++ String "|" (typestr (ValType_of sizeof (value_type cont))))
                ++ String "|" (size_str cont))
    ++ String "|" (shape_str cont).
Proof.
  unfold create_header.
  rewrite !append_assoc. cbn [append]. reflexivity.
Qed.

Lemma append_inj_l (p a b : string) : p ++ a = p ++ b -> a = b.
Proof.
  induction p as [|c p IH]; cbn [append]; intros H; [assumption|].
  inversion H; auto.
Qed.

(** X9: two headers are equal only if they were built from the same name, the
    same type tag and containers of the same kind and dimensions, whatever
    the name contains; for a registered element type the tag also fixes the
    type. *)
Theorem create_header_injective (sizeof : ctype -> N)
    (key1 key2 : string) (cont1 cont2 : container) :
  create_header sizeof key1 cont1 = create_header sizeof key2 cont2 ->
  key1 = key2
  /\ typestr (ValType_of sizeof (value_type cont1))
     = typestr (ValType_of sizeof (value_type cont2))
  /\ same_shape cont1 cont2
  /\ (is_registered (value_type cont1) = true ->
      value_type cont1 = value_type cont2).
Proof.
  rewrite !create_header_fields. intros H.
  apply append_inj_l in H.
  apply append_pipe_inj in H; try apply no_pipe_shape_str.
  destruct H as [H Hshape].
  apply append_pipe_inj in H; try apply no_pipe_to_string.
  destruct H as [H Hsize].
  apply append_pipe_inj in H; try apply no_pipe_typestr.
  destruct H as [Hkey Htag].
  repeat split; auto.
  - now apply shape_str_same_shape.
  - intros Hr. now apply (typestr_registered_inj sizeof).
Qed.

(* ------------------------------------------------------------------ *)
(** ** Sessions *)

Section Session.

Variable sizeof : ctype -> N.

Lemma send_containers_sent args : forall self,
  socket_ (send_containers sizeof args self)
  = (socket_ self ++ flat_map (sent_pair sizeof) args)%list.
Proof.
  induction args as [|a args IH]; intros self; cbn [send_containers flat_map].
  - now rewrite List.app_nil_r.
  - rewrite IH. unfold send_container, socket_send, sent_pair; cbn [socket_].
    now rewrite <- !List.app_assoc.
Qed.

Lemma send_containers_cmds args : forall self,
  plot_cmds_ (send_containers sizeof args self) = plot_cmds_ self.
Proof.
  induction args as [|a args IH]; intros self; cbn [send_containers];
    [reflexivity|].
  now rewrite IH.
Qed.

Lemma data_args_sent args self :
  socket_ (data_args sizeof args self)
  = (socket_ self ++ flat_map (sent_pair sizeof) args
     ++ [Copied (plot_cmds_ self); Copied "finalize"])%list.
Proof.
  unfold data_args, socket_send; cbn [socket_ plot_cmds_].
  rewrite send_containers_cmds, send_containers_sent.
  now rewrite <- !List.app_assoc.
Qed.

Lemma push_all_state cmds : forall self,
  socket_ (push_all cmds self) = socket_ self
  /\ plot_cmds_ (push_all cmds self) = plot_cmds_ self ++ pushed_text cmds.
Proof.
  unfold push_all.
  induction cmds as [|c cmds IH]; intros self; cbn [fold_left pushed_text fold_right].
  - now rewrite append_nil_r.
  - destruct (IH (push c self)) as [Hs Hc].
    rewrite Hs, Hc. unfold push; cbn [socket_ plot_cmds_].
    now rewrite !append_assoc.
Qed.

(** X10: the command message of a batch is the text of the [push] calls made
    since the previous [data_args], each command followed by a newline, in
    the order of the calls; nothing pushed before the previous batch is
    sent again, and [push] itself sends nothing. *)
Theorem data_args_after_push (args0 args : list (string * container))
    (cmds : list string) (self : cppyplot) :
  socket_ (data_args sizeof args (push_all cmds (data_args sizeof args0 self)))
  = (socket_ (data_args sizeof args0 self)
     ++ flat_map (sent_pair sizeof) args
     ++ [Copied (pushed_text cmds); Copied "finalize"])%list.
Proof.
  rewrite data_args_sent.
  destruct (push_all_state cmds (data_args sizeof args0 self)) as [Hs Hc].
  rewrite Hs, Hc.
  reflexivity.
Qed.

(** *** Sentinels *)

Lemma count_copied_app (s : string) (a b : list message) :
  count_copied s (a ++ b)%list = (count_copied s a + count_copied s b)%nat.
Proof.
  unfold count_copied. now rewrite filter_app, length_app.
Qed.

Lemma header_is_not_sentinel (key : string) (cont : container) :
  String.eqb (create_header sizeof key cont) "finalize" = false
  /\ String.eqb (create_header sizeof key cont) "exit" = false.
Proof.
  rewrite create_header_fields. split; reflexivity.
Qed.

Lemma count_copied_sent_pairs (s : string) args :
  s = "finalize" \/ s = "exit" ->
  count_copied s (flat_map (sent_pair sizeof) args) = 0%nat.
Proof.
  intros Hs.
  induction args as [|a args IH]; [reflexivity|].
  cbn [flat_map]. rewrite count_copied_app, IH.
  unfold count_copied, sent_pair; cbn [filter is_copied].
  destruct (header_is_not_sentinel (fst a) (snd a)) as [Hf He].
  destruct Hs as [-> | ->]; [rewrite Hf | rewrite He]; reflexivity.
Qed.

(** A command text made by [push] calls is empty or holds a newline. *)
Lemma occurs_append (c : ascii) (a b : string) :
  occurs c (a ++ b) = occurs c a || occurs c b.
Proof.
  unfold occurs.
  induction a as [|x a IH]; cbn [append list_ascii_of_string existsb];
    [reflexivity|].
  now rewrite IH, orb_assoc.
Qed.

Lemma command_text_is_not_sentinel (t s : string) :
  t = "" \/ occurs newline t = true ->
  s = "finalize" \/ s = "exit" ->
  String.eqb t s = false.
Proof.
  intros Ht Hs.
  destruct (String.eqb_spec t s) as [E|]; [|reflexivity].
  subst t.
  destruct Hs as [-> | ->]; destruct Ht as [Ht|Ht]; discriminate.
Qed.

Lemma count_copied_batch_end (t : string) :
  t = "" \/ occurs newline t = true ->
  count_copied "finalize" [Copied t; Copied "finalize"] = 1%nat
  /\ count_copied "exit" [Copied t; Copied "finalize"] = 0%nat.
Proof.
  intros Ht.
  unfold count_copied; cbn [filter is_copied].
  rewrite (command_text_is_not_sentinel t "finalize") by auto.
  rewrite (command_text_is_not_sentinel t "exit") by auto.
  split; reflexivity.
Qed.

Lemma run_session_counts (ops : list session_op) : forall self,
  plot_cmds_ self = "" \/ occurs newline (plot_cmds_ self) = true ->
  count_copied "finalize" (socket_ (run_session sizeof ops self))
  = (count_copied "finalize" (socket_ self) + List.length (filter is_batch ops))%nat
  /\ count_copied "exit" (socket_ (run_session sizeof ops self))
     = count_copied "exit" (socket_ self).
Proof.
  unfold run_session.
  induction ops as [|op ops IH]; intros self Hcmd; cbn [fold_left filter].
  - cbn [List.length]. now rewrite Nat.add_0_r.
  - destruct op as [cmds | args]; cbn [run_op is_batch].
    + destruct (IH (push cmds self)) as [Hf He].
      * right. unfold push; cbn [plot_cmds_].
        rewrite !occurs_append.
        replace (occurs newline NL) with true by reflexivity.
        now rewrite orb_true_r.
      * now rewrite Hf, He.
    + destruct (IH (data_args sizeof args self)) as [Hf He].
      * now left.
      * rewrite Hf, He, data_args_sent.
        rewrite !count_copied_app.
        rewrite !count_copied_sent_pairs by auto.
        destruct (count_copied_batch_end (plot_cmds_ self) Hcmd) as [-> ->].
        cbn [List.length]. split; lia.
Qed.

(** X11: in a session of [push] and [data_args] calls on a new object, closed by
    the destructor, no message the library composes itself is taken for a
    sentinel: among the copied messages (headers, command texts and
    sentinels) the text ["finalize"] occurs once per [data_args] call and
    the text ["exit"] once, in the last message of the log.  Payload
    messages are not counted: their bytes are the caller's and may be
    anything. *)
Theorem session_sentinels (ops : list session_op) :
  count_copied "finalize" (socket_ (destroy (run_session sizeof ops fresh)))
  = List.length (filter is_batch ops)
  /\ count_copied "exit" (socket_ (destroy (run_session sizeof ops fresh))) = 1%nat
  /\ socket_ (destroy (run_session sizeof ops fresh))
     = (socket_ (run_session sizeof ops fresh) ++ [Copied "exit"])%list
  /\ count_copied "exit" (socket_ (run_session sizeof ops fresh)) = 0%nat.
Proof.
  destruct (run_session_counts ops fresh (or_introl eq_refl)) as [Hf He].
  unfold destroy, socket_send; cbn [socket_].
  rewrite !count_copied_app, Hf, He.
  change (count_copied "finalize" (socket_ fresh)) with 0%nat.
  change (count_copied "exit" (socket_ fresh)) with 0%nat.
  change (count_copied "finalize" [Copied "exit"]) with 0%nat.
  change (count_copied "exit" [Copied "exit"]) with 1%nat.
  repeat split; lia.
Qed.

End Session.

(* ------------------------------------------------------------------ *)
(** ** Leading blank lines have no influence *)

Lemma adjusted_position (ls cur k : Z) :
  0 <= k -> 0 <= cur <= ls -> ls - cur + k < 2 ^ 32 ->
  to_size_t (adjust_line_start ls cur k)
  = if (ls - cur + k <=? INT_MAX)%Z then ls - cur + k
    else ls - cur + k - 2 ^ 32 + 2 ^ 64.
Proof.
  intros Hk Hc Hv.
  destruct (Z.leb_spec (ls - cur + k) INT_MAX) as [Hle|Hgt];
    unfold INT_MAX, to_size_t, adjust_line_start, to_int, to_unsigned in *;
    Z.div_mod_to_equations; lia.
Qed.

Lemma piece_count_shift (p i ls cur k : Z) :
  piece_count (p + i) (adjust_line_start (ls + p) cur k)
  = piece_count i (adjust_line_start ls cur k).
Proof.
  unfold piece_count, adjust_line_start, to_int, to_unsigned.
  Z.div_mod_to_equations. lia.
Qed.

Section DedentShift.

Variables pre body : string_view.
Variable num_spaces : Z.
Hypothesis text_fits : sv_length (pre ++ body)%list <= INT_MAX.
Hypothesis num_spaces_range : 0 <= num_spaces <= INT_MAX.

(** The piece cut out for a line is the same on the text and on its
    suffix, and [substr] throws on both or on neither. *)
Lemma sv_substr_shift (i ls cur : Z) :
  0 <= cur <= ls -> ls < i -> i < sv_length body ->
  sv_substr (pre ++ body)%list
            (to_size_t (adjust_line_start (ls + sv_length pre) cur num_spaces))
            (to_size_t (piece_count (sv_length pre + i)
                          (adjust_line_start (ls + sv_length pre) cur num_spaces)))
  = sv_substr body
              (to_size_t (adjust_line_start ls cur num_spaces))
              (to_size_t (piece_count i (adjust_line_start ls cur num_spaces))).
Proof.
  intros Hc Hl Hi.
  pose proof text_fits as Hfit. pose proof num_spaces_range as Hk.
  rewrite sv_length_app in Hfit. unfold INT_MAX in Hfit, Hk.
  pose proof (sv_length_nonneg pre) as Hp.
  rewrite piece_count_shift.
  rewrite !adjusted_position by lia.
  unfold sv_substr. rewrite sv_length_app.
  set (cnt := to_size_t (piece_count i (adjust_line_start ls cur num_spaces))).
  destruct (Z.leb_spec (ls + sv_length pre - cur + num_spaces) INT_MAX) as [Hle|Hgt];
    destruct (Z.leb_spec (ls - cur + num_spaces) INT_MAX) as [Hle'|Hgt'];
    unfold INT_MAX in *.
  - destruct (Z.ltb_spec (sv_length pre + sv_length body)
                (ls + sv_length pre - cur + num_spaces)) as [E|E];
      destruct (Z.ltb_spec (sv_length body) (ls - cur + num_spaces)) as [E'|E'];
      try lia; [reflexivity|].
    replace (Z.to_nat (ls + sv_length pre - cur + num_spaces))
      with (List.length pre + Z.to_nat (ls - cur + num_spaces))%nat
      by (unfold sv_length; lia).
    rewrite skipn_app, skipn_all2 by lia.
    replace (List.length pre + Z.to_nat (ls - cur + num_spaces) - List.length pre)%nat
      with (Z.to_nat (ls - cur + num_spaces)) by lia.
    cbn [app].
    do 3 f_equal. lia.
  - lia.
  - destruct (Z.ltb_spec (sv_length pre + sv_length body)
                (ls + sv_length pre - cur + num_spaces - 2 ^ 32 + 2 ^ 64)) as [E|E];
      destruct (Z.ltb_spec (sv_length body) (ls - cur + num_spaces)) as [E'|E'];
      try lia; reflexivity.
  - destruct (Z.ltb_spec (sv_length pre + sv_length body)
                (ls + sv_length pre - cur + num_spaces - 2 ^ 32 + 2 ^ 64)) as [E|E];
      destruct (Z.ltb_spec (sv_length body)
                  (ls - cur + num_spaces - 2 ^ 32 + 2 ^ 64)) as [E'|E'];
      try lia; reflexivity.
Qed.

Lemma dedent_step_shift (i : Z) (c : ascii) (st : dedent_state) :
  0 <= i -> i < sv_length body ->
  state_inv i st ->
  dedent_step (pre ++ body)%list num_spaces (sv_length pre + i) c
              (shift_state (sv_length pre) st)
  = option_map (shift_state (sv_length pre))
               (dedent_step body num_spaces i c st)
  /\ forall st', dedent_step body num_spaces i c st = Some st' ->
                 state_inv (i + 1) st'.
Proof.
  intros Hi Hib (Hcur & Hinv).
  pose proof text_fits as Hfit.
  rewrite sv_length_app in Hfit. unfold INT_MAX in Hfit.
  pose proof (sv_length_nonneg pre) as Hp.
  destruct st as [out ls ps cur]; cbn [process_spaces line_start cur_space_count] in *.
  unfold dedent_step, shift_state;
    cbn [process_spaces line_start cur_space_count out_str].
  destruct ps.
  - destruct Hinv as [Hls Hci].
    destruct (negb (Ascii.eqb c space) && negb (Ascii.eqb c tab)).
    + rewrite !to_int_small by lia. cbn [option_map].
      split.
      * unfold shift_state; cbn. do 2 f_equal. lia.
      * intros st' H; inversion H; subst. split; cbn; lia.
    + cbn [option_map]. split; [reflexivity|].
      intros st' H; inversion H; subst.
      rewrite to_int_small by lia. split; cbn; lia.
  - destruct Hinv as [Hcl Hli].
    destruct (Ascii.eqb c newline).
    + destruct (Z.eqb_spec (ls + sv_length pre) (-1)) as [E|_]; [lia|].
      destruct (Z.eqb_spec ls (-1)) as [E|_]; [lia|].
      rewrite sv_substr_shift by lia.
      destruct (sv_substr body _ _) as [piece|]; cbn [option_map].
      * split; [reflexivity|].
        intros st' H; inversion H; subst. split; cbn; lia.
      * split; [reflexivity | discriminate].
    + cbn [option_map]. split; [reflexivity|].
      intros st' H; inversion H; subst. split; cbn; lia.
Qed.

Lemma dedent_loop_shift (rest : string_view) : forall i st,
  0 <= i -> i + sv_length rest <= sv_length body ->
  state_inv i st ->
  dedent_loop (pre ++ body)%list num_spaces rest (sv_length pre + i)
              (shift_state (sv_length pre) st)
  = dedent_loop body num_spaces rest i st.
Proof.
  pose proof text_fits as Hfit.
  rewrite sv_length_app in Hfit. unfold INT_MAX in Hfit.
  pose proof (sv_length_nonneg pre) as Hp.
  induction rest as [|c rest IH]; intros i st Hi Hir Hinv.
  - reflexivity.
  - rewrite sv_length_cons in Hir.
    pose proof (sv_length_nonneg rest) as Hr.
    cbn [dedent_loop].
    destruct (dedent_step_shift i c st) as [Hstep Hnext]; [lia | lia | assumption |].
    rewrite Hstep.
    destruct (dedent_step body num_spaces i c st) as [st'|]; cbn [option_map];
      [|reflexivity].
    rewrite !to_unsigned_small by lia.
    rewrite <- Z.add_assoc.
    apply IH; [lia | lia | now apply Hnext].
Qed.

End DedentShift.

(** X8: when the reference indentation is not 0, [dedent_string] gives on a
    text what it gives on the text without everything that precedes its
    first occupied line: the same result, or an exception on both. *)
Theorem dedent_view_leading_lines (raw_str : string_view) :
  sv_length raw_str <= INT_MAX ->
  snd (non_empty_line_idx raw_str) <> 0 ->
  dedent_view raw_str
  = dedent_view (skipn (Z.to_nat (fst (non_empty_line_idx raw_str))) raw_str).
Proof.
  intros Hfit Hk.
  destruct (non_empty_line_idx_spec raw_str Hfit)
    as (pre & ws & rest & Heq & Hidx & Hb & Hocc).
  rewrite Hidx in Hk |- *. cbn [fst snd] in Hk |- *.
  assert (Hskip : skipn (Z.to_nat (sv_length pre)) raw_str = (ws ++ rest)%list)
    by (rewrite Heq; apply skipn_sv_length).
  rewrite Hskip.
  assert (Hbody : sv_length (ws ++ rest)%list <= INT_MAX).
  { rewrite Heq, sv_length_app in Hfit.
    pose proof (sv_length_nonneg pre). lia. }
  pose proof (non_empty_line_idx_lines [] ws rest (Forall_nil _) Hb Hocc Hbody)
    as Hidx'.
  cbn [map List.concat app] in Hidx'. change (sv_length []) with 0 in Hidx'.
  unfold dedent_view. rewrite Hidx, Hidx'.
  destruct (Z.eqb_spec (sv_length ws) 0) as [E|_]; [contradiction|].
  pose proof (sv_length_nonneg pre) as Hp.
  pose proof (sv_length_nonneg ws) as Hw.
  pose proof (sv_length_nonneg rest) as Hr.
  assert (Hsum : sv_length pre + sv_length ws + sv_length rest = sv_length raw_str)
    by (rewrite Heq, !sv_length_app; lia).
  unfold INT_MAX in Hfit.
  rewrite to_unsigned_small by lia.
  rewrite Hskip.
  change (to_unsigned 0) with 0. cbn [Z.to_nat skipn].
  rewrite Heq.
  assert (Hs : dedent_loop (pre ++ ws ++ rest)%list (sv_length ws)
                 (ws ++ rest)%list (sv_length pre + 0)
                 (shift_state (sv_length pre) dedent_init)
               = dedent_loop (ws ++ rest)%list (sv_length ws)
                   (ws ++ rest)%list 0 dedent_init).
  { apply dedent_loop_shift.
    - rewrite <- Heq. unfold INT_MAX. lia.
    - unfold INT_MAX. lia.
    - lia.
    - lia.
    - unfold state_inv, dedent_init; cbn. lia. }
  rewrite Z.add_0_r in Hs.
  exact Hs.
Qed.

(* ------------------------------------------------------------------ *)
(** ** The general statements on concrete texts *)

(** A blank second line and an under-indented fourth line: every line the
    loop delimits loses its first two characters. *)
Lemma dedent_view_loop_lines_witness :
  dedent_view
    (list_ascii_of_string
       ("  a" ++ NL ++ NL ++ "  b" ++ NL ++ " c" ++ NL ++ "zz"))
  = Some (list_ascii_of_string ("a" ++ NL ++ " b" ++ NL ++ NL)).
Proof.
  apply (dedent_view_loop_lines
           []
           (mk_text_line (list_ascii_of_string "  ") (list_ascii_of_string "a"))
           [ mk_text_line [] (list_ascii_of_string (NL ++ "  b"));
             mk_text_line (list_ascii_of_string " ") (list_ascii_of_string "c") ]
           (list_ascii_of_string "zz")).
  - constructor.
  - reflexivity.
  - repeat constructor; try (vm_compute; discriminate);
      eexists; eexists; split; reflexivity.
  - repeat constructor; try (vm_compute; discriminate);
      eexists; eexists; repeat split; try reflexivity; repeat constructor.
  - repeat constructor.
  - vm_compute; discriminate.
Defined.

Lemma non_empty_line_idx_layout_witness :
  exists pre ws rest,
    list_ascii_of_string (NL ++ " " ++ NL ++ "   a" ++ NL)
    = (pre ++ ws ++ rest)%list
    /\ non_empty_line_idx (list_ascii_of_string (NL ++ " " ++ NL ++ "   a" ++ NL))
       = (sv_length pre, sv_length ws)
    /\ leading_blank_lines pre
    /\ all_blank ws
    /\ occupied rest
    /\ 0 <= sv_length pre
    /\ sv_length pre + sv_length ws
       <= sv_length (list_ascii_of_string (NL ++ " " ++ NL ++ "   a" ++ NL)).
Proof.
  apply (non_empty_line_idx_layout
           (list_ascii_of_string (NL ++ " " ++ NL ++ "   a" ++ NL))).
  vm_compute; discriminate.
Defined.

Lemma dedent_view_unindented_witness :
  dedent_view
    (list_ascii_of_string (NL ++ "  " ++ NL ++ "a" ++ NL ++ "  b" ++ NL))
  = Some (list_ascii_of_string (NL ++ "  " ++ NL ++ "a" ++ NL ++ "  b" ++ NL)).
Proof.
  apply (dedent_view_unindented
           [ []; list_ascii_of_string "  " ]
           (list_ascii_of_string ("a" ++ NL ++ "  b" ++ NL))).
  - repeat constructor.
  - right. eexists; eexists. repeat split; reflexivity.
  - vm_compute; discriminate.
Defined.

Lemma dedent_view_only_indentation_witness :
  dedent_view (list_ascii_of_string (NL ++ "   ")) = Some [].
Proof.
  apply (dedent_view_only_indentation [ [] ] (list_ascii_of_string "   ")).
  - repeat constructor.
  - repeat constructor.
  - discriminate.
  - vm_compute; discriminate.
Defined.

Lemma dedent_string_result_unindented_witness :
  snd (non_empty_line_idx
         (list_ascii_of_string ("a" ++ NL ++ "  b" ++ NL))) = 0.
Proof.
  apply (dedent_string_result_unindented example_text ("a" ++ NL ++ "  b" ++ NL)).
  - vm_compute; discriminate.
  - vm_compute; reflexivity.
Defined.

Lemma dedent_string_chars_witness :
  incl (list_ascii_of_string ("a" ++ NL ++ NL))
       (list_ascii_of_string ("  a" ++ NL ++ " b" ++ NL)).
Proof.
  apply (dedent_string_chars ("  a" ++ NL ++ " b" ++ NL) ("a" ++ NL ++ NL)).
  vm_compute; reflexivity.
Defined.

Lemma dedent_view_leading_lines_witness :
  dedent_view (list_ascii_of_string (NL ++ NL ++ "   a" ++ NL ++ "b" ++ NL ++ "cc"))
  = dedent_view
      (skipn (Z.to_nat
                (fst (non_empty_line_idx
                        (list_ascii_of_string
                           (NL ++ NL ++ "   a" ++ NL ++ "b" ++ NL ++ "cc")))))
             (list_ascii_of_string
                (NL ++ NL ++ "   a" ++ NL ++ "b" ++ NL ++ "cc"))).
Proof.
  apply (dedent_view_leading_lines
           (list_ascii_of_string (NL ++ NL ++ "   a" ++ NL ++ "b" ++ NL ++ "cc"))).
  - vm_compute; discriminate.
  - vm_compute; discriminate.
Defined.

Lemma create_header_injective_witness :
  "x" = "x"
  /\ typestr (ValType_of sizeof_LP64 (value_type (StdVector Float 4096 3)))
     = typestr (ValType_of sizeof_LP64 (value_type (StdVector Float 8192 3)))
  /\ same_shape (StdVector Float 4096 3) (StdVector Float 8192 3)
  /\ (is_registered (value_type (StdVector Float 4096 3)) = true ->
      value_type (StdVector Float 4096 3) = value_type (StdVector Float 8192 3)).
Proof.
  apply (create_header_injective sizeof_LP64 "x" "x"
           (StdVector Float 4096 3) (StdVector Float 8192 3)).
  reflexivity.
Defined.

(* ------------------------------------------------------------------ *)
(** ** Names of data pairs *)

Lemma map_nth_seq (l t : list ascii) (d : ascii) :
  map (fun i => nth i (l ++ t)%list d) (seq 0 (List.length l)) = l.
Proof.
  induction l as [|a l IH]; [reflexivity|].
  cbn [List.length seq map app nth].
  rewrite <- seq_shift, map_map.
  cbn [nth]. now rewrite IH.
Qed.

(** X12: the name [DATA_PAIR] pairs with a value is the text of the
    identifier, without the terminating zero of the character array and
    whatever characters the text holds; the value is passed on as it is, so
    the header built for the pair carries the identifier in its name
    field. *)
Theorem DATA_PAIR_name (sizeof : ctype -> N) (identifier : string)
    (value : container) :
  DATA_PAIR identifier value = (identifier, value)
  /\ create_header sizeof (fst (DATA_PAIR identifier value))
                    (snd (DATA_PAIR identifier value))
     = create_header sizeof identifier value.
Proof.
  assert (H : DATA_PAIR identifier value = (identifier, value)).
  { unfold DATA_PAIR, compile_time_str, build_string, STRINGIFY.
    rewrite length_app. cbn [List.length].
    replace (List.length (list_ascii_of_string identifier) + 1 - 1)%nat
      with (List.length (list_ascii_of_string identifier)) by lia.
    rewrite map_nth_seq.
    now rewrite string_of_list_ascii_of_string. }
  split; [exact H | now rewrite H].
Qed.
